(** * Conversation memory, prompt assembly and visual formatting

    A shallow embedding of [backend/main.py]: the [ConversationMemory]
    store, [build_visual_payload], [build_prompt_with_context] and the
    [chat] handler, followed by the properties established about them.

    Python strings are sequences of Unicode code points, so a string is a
    list of code points ([N]).  The session store is a dictionary from
    session id to the list of its turns, modelled as a [gmap]. *)

From Stdlib Require Import ZArith NArith List Bool Lia.
From Stdlib Require Import Strings.String Strings.Ascii Numbers.DecimalString.
From stdpp Require Import gmap list.

Local Open Scope N_scope.

(** ** Python strings *)

Abbreviation pystr := (list N).

(** A literal written in ASCII. *)
Definition py (s : string) : pystr :=
  map N_of_ascii (list_ascii_of_string s).
Arguments py _%_string.

Definition LF : N := 10.
Definition CR : N := 13.
Definition QUOT : N := 34.
Definition APOS : N := 39.

(** Truth value of a string: [if s:]. *)
Definition truthy (s : pystr) : bool :=
  match s with [] => false | _ :: _ => true end.

(** [s.startswith(pat)]. *)
Fixpoint starts_with (pat s : pystr) : bool :=
  match pat, s with
  | [], _ => true
  | _ :: _, [] => false
  | p :: pat', c :: s' => (p =? c) && starts_with pat' s'
  end.

(** [pat in s]. *)
Fixpoint py_in (pat s : pystr) : bool :=
  starts_with pat s ||
  match s with
  | [] => false
  | _ :: s' => py_in pat s'
  end.

(** [s.replace(old, new)]: occurrences are found left to right and do not
    overlap.  [skip] counts the characters of a match still to be passed
    over. *)
Fixpoint replace_from (old new : pystr) (skip : nat) (s : pystr) : pystr :=
  match s with
  | [] => []
  | c :: s' =>
      match skip with
      | S k => replace_from old new k s'
      | O =>
          if starts_with old s
          then new ++ replace_from old new (length old - 1) s'
          else c :: replace_from old new 0 s'
      end
  end.

Definition replace (old new s : pystr) : pystr :=
  match old with
  | [] => new ++ flat_map (fun c => c :: new) s
  | _ :: _ => replace_from old new 0 s
  end.

(** [s.split(sep)] for a non-empty separator: the pieces between the
    non-overlapping occurrences of [sep], found left to right. *)
Fixpoint split_from (sep : pystr) (skip : nat) (s : pystr) : list pystr :=
  match s with
  | [] => [[]]
  | c :: s' =>
      match skip with
      | S k => split_from sep k s'
      | O =>
          if starts_with sep s
          then [] :: split_from sep (length sep - 1) s'
          else match split_from sep 0 s' with
               | p :: ps => (c :: p) :: ps
               | [] => [[c]]
               end
      end
  end.

Definition split (sep s : pystr) : list pystr := split_from sep 0 s.

(** [sep.join(parts)]. *)
Fixpoint join (sep : pystr) (parts : list pystr) : pystr :=
  match parts with
  | [] => []
  | [p] => p
  | p :: ps => p ++ sep ++ join sep ps
  end.

(** [c.isspace()]: the code points Python treats as whitespace. *)
Definition isspace (c : N) : bool :=
  ((9 <=? c) && (c <=? 13)) || ((28 <=? c) && (c <=? 32)) ||
  (c =? 133) || (c =? 160) || (c =? 5760) ||
  ((8192 <=? c) && (c <=? 8202)) || (c =? 8232) || (c =? 8233) ||
  (c =? 8239) || (c =? 8287) || (c =? 12288).

Fixpoint lstrip (s : pystr) : pystr :=
  match s with
  | [] => []
  | c :: s' => if isspace c then lstrip s' else s
  end.

Definition rstrip (s : pystr) : pystr := rev (lstrip (rev s)).

(** [s.strip()]. *)
Definition strip (s : pystr) : pystr := rstrip (lstrip s).

Definition is_upper (c : N) : bool := (65 <=? c) && (c <=? 90).
Definition is_lower (c : N) : bool := (97 <=? c) && (c <=? 122).
Definition to_upper (c : N) : N := if is_lower c then c - 32 else c.
Definition to_lower (c : N) : N := if is_upper c then c + 32 else c.

(** [s.capitalize()]: first character upper-cased, the rest lower-cased.
    Case mapping is modelled on the ASCII letters, which is all the role
    names use. *)
Definition capitalize (s : pystr) : pystr :=
  match s with
  | [] => []
  | c :: s' => to_upper c :: map to_lower s'
  end.

(** [html.escape(s)] with its default [quote=True]: five successive
    replacements, the ampersand first. *)
Definition html_escape (s : pystr) : pystr :=
  let s := replace (py "&") (py "&amp;") s in
  let s := replace (py "<") (py "&lt;") s in
  let s := replace (py ">") (py "&gt;") s in
  let s := replace [QUOT] (py "&quot;") s in
  let s := replace [APOS] (py "&#x27;") s in
  s.

(** [a == b] on strings. *)
Fixpoint str_eqb (a b : pystr) : bool :=
  match a, b with
  | [], [] => true
  | x :: a', y :: b' => (x =? y) && str_eqb a' b'
  | _, _ => false
  end.

(** [str(n)] for an integer. *)
Definition str_of_int (n : Z) : pystr :=
  py (NilZero.string_of_int (Z.to_int n)).

(** Truth value of an optional string: [None] and the empty string are
    false. *)
Definition opt_truthy (o : option pystr) : bool :=
  match o with
  | Some s => truthy s
  | None => false
  end.

Local Close Scope N_scope.
Local Open Scope Z_scope.

(** [l[start:]] with Python's treatment of negative and out-of-range
    indices. *)
Definition slice_from {A} (start : Z) (l : list A) : list A :=
  let n := Z.of_nat (length l) in
  let start := if start <? 0 then Z.max (start + n) 0 else Z.min start n in
  drop (Z.to_nat start) l.

(** ** Conversation memory *)

(** One stored message, [{"role": .., "text": .., "timestamp": ..}].  The
    timestamp is kept as the clock reading (microseconds, UTC) whose ISO
    rendering the code stores. *)
Record Turn := { role : pystr; text : pystr; timestamp : Z }.

(** [ConversationMemory._store].  Every method runs under the one lock, so
    each is a single atomic step on the store. *)
Abbreviation Store := (gmap (list N) (list Turn)).

(** [add_message], given the clock reading [ts] taken on entry. *)
Definition add_message_at (ts : Z) (session_id role text : pystr)
    (st : Store) : Store :=
  let item := {| role := role; text := text; timestamp := ts |} in
  let st :=
    match st !! session_id with
    | None => <[session_id := []]> st
    | Some _ => st
    end in
  alter (fun items => items ++ [item]) session_id st.

Definition get_all (st : Store) (session_id : pystr) : list Turn :=
  default [] (st !! session_id).

Definition get_recent (st : Store) (session_id : pystr) (limit : Z)
    : list Turn :=
  let items := default [] (st !! session_id) in
  if negb (limit =? 0) && (Z.of_nat (length items) >? limit)
  then slice_from (- limit) items
  else items.

Definition clear (session_id : pystr) (st : Store) : Store :=
  delete session_id st.

Definition sessions (st : Store) : list pystr :=
  (map_to_list st).*1.

(** ** Visual formatter *)

Record Segment := { seg_type : pystr; seg_text : pystr }.

Record VisualPayload :=
  { html : pystr; markdown : pystr; segments : list Segment }.

(** Line endings normalised: [text.replace("\r\n", "\n").replace("\r", "\n")]. *)
Definition normalize_newlines (text : pystr) : pystr :=
  replace [CR] [LF] (replace [CR; LF] [LF] text).

(** [[p.strip() for p in pieces if p.strip()]]. *)
Definition stripped_nonempty (pieces : list pystr) : list pystr :=
  map strip (List.filter (fun p => truthy (strip p)) pieces).

(** The paragraphs of an already normalised text. *)
Definition paragraphs_of (text : pystr) : list pystr :=
  if py_in [LF; LF] text
  then stripped_nonempty (split [LF; LF] text)
  else stripped_nonempty (split [LF] text).

(** One turn of the loop over the paragraphs: both lists grow by one. *)
Definition visual_step (acc : list pystr * list Segment) (p : pystr)
    : list pystr * list Segment :=
  let safe := html_escape p in
  let safe := replace [LF] (py "<br>") safe in
  (acc.1 ++ [py "<p>" ++ safe ++ py "</p>"],
   acc.2 ++ [{| seg_type := py "paragraph"; seg_text := p |}]).

Definition build_visual_payload (text : option pystr) : VisualPayload :=
  let text := match text with None => [] | Some t => t end in
  let text := normalize_newlines text in
  let paragraphs := paragraphs_of text in
  let '(html_parts, segments) := fold_left visual_step paragraphs ([], []) in
  {| html :=
       match html_parts with
       | [] => py "<p>(empty)</p>"
       | _ :: _ => join [LF] html_parts
       end;
     markdown :=
       match paragraphs with
       | [] => []
       | _ :: _ => join [LF; LF] paragraphs
       end;
     segments := segments |}.

(** ** Prompt builder *)

Definition system_header : pystr := py "System instructions:".

(** ["Conversation history (oldest → newest):"]; the arrow is U+2192. *)
Definition history_header : pystr :=
  py "Conversation history (oldest " ++ [8594%N] ++ py " newest):".

(** The lines the first block appends to [parts]. *)
Definition system_block (st : Store) (session_id : pystr) : list pystr :=
  let all_items := get_all st session_id in
  let system_msgs :=
    List.filter (fun it => str_eqb (role it) (py "system")) all_items in
  match system_msgs with
  | [] => []
  | _ :: _ =>
      fold_left (fun parts it => parts ++ [strip (text it)])
        system_msgs [system_header] ++ [[]]
  end.

(** One turn of the loop over the recent items; a system entry is passed
    over by [continue]. *)
Definition history_step (parts : list pystr) (item : Turn) : list pystr :=
  let role_ := capitalize (role item) in
  if str_eqb (role item) (py "system") then parts
  else
    let text_ := strip (text item) in
    parts ++ [role_ ++ py ": " ++ text_].

(** The lines the second block appends to [parts]. *)
Definition history_block (st : Store) (session_id : pystr) (memory_size : Z)
    : list pystr :=
  let recent := get_recent st session_id memory_size in
  match recent with
  | [] => []
  | _ :: _ => fold_left history_step recent [history_header] ++ [[]]
  end.

Definition build_prompt_with_context (st : Store) (session_id : option pystr)
    (user_message : pystr) (memory_size : Z) : pystr :=
  let parts := [] in
  let parts :=
    match session_id with
    | Some sid => if truthy sid then parts ++ system_block st sid else parts
    | None => parts
    end in
  let parts :=
    match session_id with
    | Some sid =>
        if truthy sid then parts ++ history_block st sid memory_size
        else parts
    | None => parts
    end in
  let parts := parts ++ [py "User: " ++ strip user_message] in
  let parts := parts ++ [py "Assistant:"] in
  join [LF] parts.

(** ** Canvas script *)

(** [build_canvas_script] substitutes its arguments into a fixed script
    text; the script is represented by the arguments it is built from. *)
Record CanvasScript :=
  { canvas_w : Z; canvas_h : Z; bg : pystr; bubble : pystr;
    text_color : pystr; author_badge : pystr; font_family : pystr;
    line_height : Z; typing_speed : Z }.

(** The keyword defaults of [build_canvas_script]. *)
Definition build_canvas_script_defaults : CanvasScript :=
  {| canvas_w := 600; canvas_h := 160; bg := py "#0f172a";
     bubble := py "#ffffff"; text_color := py "#0b1220";
     author_badge := py "Assistant"; font_family := py "16px Arial";
     line_height := 22; typing_speed := 40 |}.

(** ** Request handler *)

Record ChatRequest :=
  { message : pystr; session_id : option pystr;
    memory_size : option Z; system : option pystr }.

Record ChatResponse :=
  { response : pystr; model : pystr; r_html : pystr; r_markdown : pystr;
    r_segments : list Segment; r_timestamp : Z; r_session_id : pystr;
    canvas_script : CanvasScript }.

(** What [generate_content] hands back, as far as [chat] looks into it: an
    optional [text], and candidates with an optional [content] (whose first
    part carries a text) and an optional [text]. *)
Record Content := { first_part_text : pystr }.
Record Candidate := { cand_content : option Content; cand_text : option pystr }.
Record GenResult := { res_text : option pystr; candidates : list Candidate }.

(** The surroundings of the handler: the key read from the environment at
    start-up, the clock (its successive readings, in microseconds), and the
    language model, which on its [n]-th call either raises an exception
    (given by its message) or returns a result. *)
Record Env :=
  { GEMINI_API_KEY : option pystr;
    clock : nat -> Z;
    generate_content : nat -> pystr -> pystr + GenResult }.

(** The state a request runs in: the global [memory], the number of clock
    readings taken so far, and the prompts sent to the model so far. *)
Record World :=
  { memory : Store; ticks : nat; llm_calls : list pystr }.

(** A computation either returns a value or raises an exception with a
    message; the state it leaves is kept in both cases. *)
Inductive Outcome (A : Type) :=
  | Returned (a : A)
  | Raised (e : pystr).
Arguments Returned {A} a.
Arguments Raised {A} e.

Definition M (A : Type) : Type := World -> Outcome A * World.

Definition ret {A} (a : A) : M A := fun w => (Returned a, w).

Definition bind {A B} (m : M A) (k : A -> M B) : M B :=
  fun w =>
    match m w with
    | (Returned a, w') => k a w'
    | (Raised e, w') => (Raised e, w')
    end.

(** [try: body except Exception as e: handler(e)]. *)
Definition try_except {A} (body : M A) (handler : pystr -> M A) : M A :=
  fun w =>
    match body w with
    | (Returned a, w') => (Returned a, w')
    | (Raised e, w') => handler e w'
    end.

Notation "'let*' x ':=' m 'in' k" := (bind m (fun x => k))
  (at level 10, x name, m at level 100, k at level 200, only parsing).
Notation "'run' m 'in' k" := (bind m (fun _ => k))
  (at level 10, m at level 100, k at level 200, only parsing).

(** [datetime.now(timezone.utc)]. *)
Definition now (env : Env) : M Z :=
  fun w =>
    (Returned (clock env (ticks w)),
     {| memory := memory w; ticks := S (ticks w); llm_calls := llm_calls w |}).

Definition read_memory : M Store := fun w => (Returned (memory w), w).

(** [memory.add_message(session_id, role, text)]: the timestamp is read
    first, then the store is updated. *)
Definition add_message (env : Env) (sid role_ text_ : pystr) : M unit :=
  let* ts := now env in
  fun w =>
    (Returned tt,
     {| memory := add_message_at ts sid role_ text_ (memory w);
        ticks := ticks w; llm_calls := llm_calls w |}).

(** [model.generate_content(prompt)]. *)
Definition call_model (env : Env) (prompt : pystr) : M GenResult :=
  fun w =>
    let w' := {| memory := memory w; ticks := ticks w;
                 llm_calls := llm_calls w ++ [prompt] |} in
    match generate_content env (length (llm_calls w)) prompt with
    | inl e => (Raised e, w')
    | inr r => (Returned r, w')
    end.

(** The defensive extraction of the answer text. *)
Definition extract_text (result : GenResult) : pystr :=
  let text_ := res_text result in
  let text_ :=
    if negb (opt_truthy text_) then
      match candidates result with
      | [] => text_
      | first :: _ =>
          match cand_content first with
          | Some c => Some (first_part_text c)
          | None => cand_text first
          end
      end
    else text_ in
  match text_ with
  | Some (c :: s) => c :: s
  | _ => py "(empty response)"
  end.

Definition model_name : pystr := py "gemini-2.5-flash".

Definition missing_key_text : pystr :=
  py "Server is missing GEMINI_API_KEY. Please set it in .env.".

Definition chat (env : Env) (req : ChatRequest) : M ChatResponse :=
  let* sid :=
    match session_id req with
    | Some (c :: s) => ret (c :: s)
    | _ =>
        let* t := now env in
        ret (py "session-" ++ str_of_int (Z.quot t 1000))
    end in
  let memory_size_ :=
    match memory_size req with
    | Some n => if negb (n =? 0) && (n >? 0) then n else 6
    | None => 6
    end in
  run
    match system req with
    | Some (c :: s) => add_message env sid (py "system") (c :: s)
    | _ => ret tt
    end in
  if negb (opt_truthy (GEMINI_API_KEY env)) then
    let script :=
      {| canvas_w := 520; canvas_h := 140; bg := py "#0f172a";
         bubble := py "#fff3f0"; text_color := py "#6b2800";
         author_badge := py "Server";
         font_family := font_family build_canvas_script_defaults;
         line_height := line_height build_canvas_script_defaults;
         typing_speed := typing_speed build_canvas_script_defaults |} in
    let* ts := now env in
    ret {| response := missing_key_text;
           model := model_name;
           r_html := py "<p><strong>Server is missing GEMINI_API_KEY.</strong> Please set it in .env.</p>";
           r_markdown := py "**Server is missing GEMINI_API_KEY.** Please set it in .env.";
           r_segments := [{| seg_type := py "error"; seg_text := missing_key_text |}];
           r_timestamp := ts;
           r_session_id := sid;
           canvas_script := script |}
  else
    run add_message env sid (py "user") (message req) in
    try_except
      (let* st := read_memory in
       let prompt := build_prompt_with_context st (Some sid) (message req) memory_size_ in
       let* result := call_model env prompt in
       let text_ := extract_text result in
       run add_message env sid (py "assistant") text_ in
       let visual := build_visual_payload (Some text_) in
       let script :=
         {| canvas_w := 520; canvas_h := 180; bg := py "#0f172a";
            bubble := py "#ffffff"; text_color := py "#0b1220";
            author_badge := py "Assistant";
            font_family := py "16px Inter, Arial";
            line_height := 20; typing_speed := 45 |} in
       let* ts := now env in
       ret {| response := text_;
              model := model_name;
              r_html := html visual;
              r_markdown := markdown visual;
              r_segments := segments visual;
              r_timestamp := ts;
              r_session_id := sid;
              canvas_script := script |})
      (fun e =>
         let err_text := py "Error communicating with Gemini API: " ++ e in
         run add_message env sid (py "assistant") err_text in
         let visual := build_visual_payload (Some err_text) in
         let script :=
           {| canvas_w := 520; canvas_h := 140; bg := py "#0f172a";
              bubble := py "#fff7f7"; text_color := py "#7a1f1f";
              author_badge := py "Assistant";
              font_family := font_family build_canvas_script_defaults;
              line_height := line_height build_canvas_script_defaults;
              typing_speed := typing_speed build_canvas_script_defaults |} in
         let* ts := now env in
         ret {| response := err_text;
                model := model_name;
                r_html := html visual;
                r_markdown := markdown visual;
                r_segments := segments visual;
                r_timestamp := ts;
                r_session_id := sid;
                canvas_script := script |}).

(** ** Memory management endpoints *)

(** The [MemoryItem] built from the three keys of a stored turn. *)
Definition MemoryItem (it : Turn) : Turn :=
  {| role := role it; text := text it; timestamp := timestamp it |}.

(** [GET /api/memory/{session_id}]. *)
Definition get_memory (sid : pystr) : M (list Turn) :=
  let* st := read_memory in
  let items := get_all st sid in
  ret (map MemoryItem items).

(** [DELETE /api/memory/{session_id}]: the reply is the pair of its [ok]
    and [message] fields. *)
Definition clear_memory (sid : pystr) : M (bool * pystr) :=
  run (fun w =>
         (Returned tt,
          {| memory := clear sid (memory w); ticks := ticks w;
             llm_calls := llm_calls w |})) in
  ret (true, py "Cleared memory for session " ++ sid).

(** [GET /api/memory]. *)
Definition list_sessions : M (list pystr) :=
  let* st := read_memory in
  ret (sessions st).

(** [GET /health] and [GET /api/models]. *)
Definition health : bool := true.

Definition models : list pystr := [model_name].

(** ** Definitions used in the statements *)

(** [add_message] called once for each [(role, text)] of [calls], in
    order, on one session. *)
Fixpoint add_messages (env : Env) (sid : pystr) (calls : list (pystr * pystr))
    : M unit :=
  match calls with
  | [] => ret tt
  | (r, t) :: calls' =>
      run add_message env sid r t in
      add_messages env sid calls'
  end.

(** The role and the text of a turn, without its timestamp. *)
Definition said (t : Turn) : pystr * pystr := (role t, text t).

(** The set of ids listed by [sessions]. *)
Definition session_set (st : Store) : gset (list N) :=
  list_to_set (sessions st).

(** The last [n] elements of a list. *)
Definition last_n {A} (n : nat) (l : list A) : list A :=
  drop (length l - n) l.

(** A clock that never runs backwards. *)
Definition monotone (clk : nat -> Z) : Prop :=
  forall i j, (i <= j)%nat -> clk i <= clk j.

Definition turn_at (ts : Z) (r t : pystr) : Turn :=
  {| role := r; text := t; timestamp := ts |}.

(** The turn stored by the [i]-th call of a run of [add_messages] started
    at world [w]. *)
Definition stored (env : Env) (w : World) (i : nat) (c : pystr * pystr)
    : Turn :=
  turn_at (clock env (ticks w + i)) c.1 c.2.

(** The paragraphs [build_visual_payload] works on. *)
Definition paragraphs (text : option pystr) : list pystr :=
  paragraphs_of (normalize_newlines (default [] text)).

(** The escaped body of a paragraph, and the fragment and the segment the
    loop of [build_visual_payload] appends for it. *)
Definition escaped_body (p : pystr) : pystr :=
  replace [LF] (py "<br>") (html_escape p).

Definition html_fragment (p : pystr) : pystr :=
  py "<p>" ++ escaped_body p ++ py "</p>".

Definition paragraph_segment (p : pystr) : Segment :=
  {| seg_type := py "paragraph"; seg_text := p |}.

(** The line the history section shows for a turn, and the roles the
    prompt builder tells apart. *)
Definition history_line (t : Turn) : pystr :=
  capitalize (role t) ++ py ": " ++ strip (text t).

Definition is_system (t : Turn) : bool := str_eqb (role t) (py "system").

Definition is_conversational (t : Turn) : bool :=
  str_eqb (role t) (py "user") || str_eqb (role t) (py "assistant").

Definition known_role (t : Turn) : bool := is_system t || is_conversational t.

(** What the handler keeps true of the store: a session id is never the
    empty string, a stored session has at least one turn, and every role
    is one of system, user and assistant. *)
Definition store_ok (st : Store) : Prop :=
  forall sid items,
    st !! sid = Some items ->
    truthy sid = true /\ items <> [] /\
    Forall (fun t => known_role t = true) items.

(** What [html.escape] makes of one character. *)
Definition escape_char (c : N) : pystr :=
  if (c =? 38)%N then py "&amp;"
  else if (c =? 60)%N then py "&lt;"
  else if (c =? 62)%N then py "&gt;"
  else if (c =? QUOT)%N then py "&quot;"
  else if (c =? APOS)%N then py "&#x27;"
  else [c].

(** What one character of a paragraph becomes in the HTML output. *)
Definition escape_br_char (c : N) : pystr :=
  if (c =? LF)%N then py "<br>" else escape_char c.

(** [m] occurs in [s] as a contiguous run. *)
Definition has_substring (m s : pystr) : Prop :=
  exists a b, s = a ++ m ++ b.

(** The number of positions of [s] at which [pat] occurs. *)
Fixpoint occurrences (pat s : pystr) : nat :=
  (if starts_with pat s then 1 else 0) +
  match s with
  | [] => 0
  | _ :: s' => occurrences pat s'
  end.

(** A string that is not empty and neither begins nor ends with
    whitespace. *)
Definition is_trimmed (s : pystr) : Prop :=
  s <> [] /\
  (forall c, head s = Some c -> isspace c = false) /\
  (forall c, last s = Some c -> isspace c = false).

(** Sample data. *)
Definition sample_turns : list Turn :=
  [turn_at 1 (py "system") (py "Be concise.");
   turn_at 2 (py "user") (py "Hi");
   turn_at 3 (py "assistant") (py "Hello!")].

Definition sample_store : Store := {[ py "s1" := sample_turns ]}.

Definition sample_env (key : option pystr) : Env :=
  {| GEMINI_API_KEY := key;
     clock := fun n => 1000000 * Z.of_nat n;
     generate_content := fun _ _ => inl (py "quota exceeded") |}.

Definition sample_world : World :=
  {| memory := sample_store; ticks := 5; llm_calls := [] |}.

Definition sample_request : ChatRequest :=
  {| message := py "How are you?"; session_id := Some (py "s1");
     memory_size := None; system := Some (py "Answer in French.") |}.

(** The text of the formatter example. *)
Definition sample_text : pystr :=
  py "Line one." ++ [LF; LF] ++ py "Line two" ++ [LF] ++ py "still two.".

(** ** Further definitions used in the statements *)

(** One request to the server, and a run of requests one after the
    other, each starting in the state the one before left. *)
Inductive Request :=
  | ReqChat (req : ChatRequest)
  | ReqGetMemory (sid : pystr)
  | ReqClearMemory (sid : pystr)
  | ReqListSessions.

Definition serve (env : Env) (rq : Request) (w : World) : World :=
  match rq with
  | ReqChat req => (chat env req w).2
  | ReqGetMemory sid => (get_memory sid w).2
  | ReqClearMemory sid => (clear_memory sid w).2
  | ReqListSessions => (list_sessions w).2
  end.

Definition serve_all (env : Env) (rqs : list Request) (w : World) : World :=
  fold_left (fun w rq => serve env rq w) rqs w.

(** The state of a server that has just started. *)
Definition initial_world : World :=
  {| memory := ∅; ticks := 0; llm_calls := [] |}.

(** A request with one field replaced. *)
Definition with_session_id (o : option pystr) (req : ChatRequest)
    : ChatRequest :=
  {| message := message req; session_id := o;
     memory_size := memory_size req; system := system req |}.

Definition with_memory_size (o : option Z) (req : ChatRequest)
    : ChatRequest :=
  {| message := message req; session_id := session_id req;
     memory_size := o; system := system req |}.

Definition with_system (o : option pystr) (req : ChatRequest)
    : ChatRequest :=
  {| message := message req; session_id := session_id req;
     memory_size := memory_size req; system := o |}.

(** An environment with the key replaced. *)
Definition with_key (o : option pystr) (env : Env) : Env :=
  {| GEMINI_API_KEY := o; clock := clock env;
     generate_content := generate_content env |}.

(** The system turn a request asks to record, if any. *)
Definition system_said (req : ChatRequest) : list (pystr * pystr) :=
  match system req with
  | Some (c :: s) => [(py "system", c :: s)]
  | _ => []
  end.

(** The timestamps of every session of the store never decrease along
    the session, and none is later than the [k]-th reading of the
    clock. *)
Definition stamped (env : Env) (st : Store) (k : nat) : Prop :=
  forall sid,
    let stamps := map timestamp (get_all st sid) in
    (forall i j a b, (i <= j)%nat ->
       stamps !! i = Some a -> stamps !! j = Some b -> a <= b) /\
    (forall a, In a stamps -> a <= clock env k).

(** A string made of whitespace only. *)
Definition is_blank (s : pystr) : Prop :=
  forall c, In c s -> isspace c = true.

(** An environment whose model answers every prompt with the text
    "Bonjour". *)
Definition answering_env : Env :=
  {| GEMINI_API_KEY := Some (py "key");
     clock := fun n => 1000000 * Z.of_nat n;
     generate_content := fun _ _ =>
       inr {| res_text := Some (py "Bonjour"); candidates := [] |} |}.

(** ** Python strings: replace, split, strip *)

Ltac eval_py :=
  repeat match goal with
  | |- context [py ?s] =>
      let v := eval vm_compute in (py s) in change (py s) with v
  end.

Section Strings.
Local Open Scope N_scope.
Implicit Types (s m pat a b : pystr) (c : N).

Lemma starts_with_spec pat s :
  starts_with pat s = true <-> exists r, s = pat ++ r.
Proof.
revert s. induction pat as [|p pat IH]; intros s; simpl.
- split; eauto.
- destruct s as [|c s].
  + split; [done|]. by intros [r ?].
  + rewrite andb_true_iff, N.eqb_eq, IH. split.
    * intros [-> [r ->]]. eauto.
    * intros [r [= -> ->]]. eauto.
Qed.

Lemma py_in_spec pat s : py_in pat s = true <-> has_substring pat s.
Proof.
unfold has_substring. induction s as [|c s IH]; simpl.
- rewrite orb_false_r, starts_with_spec. split.
  + intros [r ->]. by exists [], r.
  + intros (a & b & E). symmetry in E.
    apply app_eq_nil in E as [-> E]. apply app_eq_nil in E as [-> ->].
    by exists [].
- rewrite orb_true_iff, starts_with_spec, IH. split.
  + intros [[r ->]|(a & b & ->)].
    * by exists [], r.
    * by exists (c :: a), b.
  + intros ([|x a] & b & E).
    * left. by exists b.
    * right. injection E as -> ->. eauto.
Qed.

Lemma replace_char c new s :
  replace [c] new s = flat_map (fun x => if x =? c then new else [x]) s.
Proof.
unfold replace. induction s as [|x s IH]; simpl; [done|].
rewrite andb_true_r, (N.eqb_sym c x), IH.
by destruct (x =? c).
Qed.

Lemma flat_map_flat_map {A B C} (f : A -> list B) (g : B -> list C) l :
  flat_map g (flat_map f l) = flat_map (fun x => flat_map g (f x)) l.
Proof.
induction l as [|x l IH]; simpl; [done|].
by rewrite flat_map_app, IH.
Qed.

Lemma html_escape_chars s : html_escape s = flat_map escape_char s.
Proof.
unfold html_escape.
change (py "&") with [38]. change (py "<") with [60].
change (py ">") with [62].
rewrite !replace_char, !flat_map_flat_map.
apply flat_map_ext. intros c. unfold escape_char.
destruct (N.eqb_spec c 38) as [->|H1]; [reflexivity|].
simpl. rewrite app_nil_r.
destruct (N.eqb_spec c 60) as [->|H2]; [reflexivity|].
simpl. rewrite app_nil_r.
destruct (N.eqb_spec c 62) as [->|H3]; [reflexivity|].
simpl. rewrite app_nil_r.
destruct (N.eqb_spec c QUOT) as [->|H4]; [reflexivity|].
simpl. rewrite app_nil_r.
destruct (N.eqb_spec c APOS) as [->|H5]; [reflexivity|].
reflexivity.
Qed.

Lemma escaped_body_chars p : escaped_body p = flat_map escape_br_char p.
Proof.
unfold escaped_body. rewrite replace_char, html_escape_chars, flat_map_flat_map.
apply flat_map_ext. intros c. unfold escape_br_char, escape_char.
destruct (N.eqb_spec c LF) as [->|H0]; [reflexivity|].
destruct (N.eqb_spec c 38) as [->|H1]; [reflexivity|].
destruct (N.eqb_spec c 60) as [->|H2]; [reflexivity|].
destruct (N.eqb_spec c 62) as [->|H3]; [reflexivity|].
destruct (N.eqb_spec c QUOT) as [->|H4]; [reflexivity|].
destruct (N.eqb_spec c APOS) as [->|H5]; [reflexivity|].
simpl. rewrite app_nil_r. by destruct (N.eqb_spec c LF).
Qed.


(** *** Occurrences of a tag in the HTML output *)

Lemma py_in_occurrences pat s :
  py_in pat s = negb (Nat.eqb (occurrences pat s) 0).
Proof.
induction s as [|c s IH]; simpl.
- by destruct (starts_with pat []).
- rewrite IH. by destruct (starts_with pat (c :: s)).
Qed.

Lemma occurrences_skip c d pat s :
  c <> d -> occurrences (d :: pat) (c :: s) = occurrences (d :: pat) s.
Proof.
intros Hne. cbn [occurrences starts_with].
destruct (N.eqb_spec d c); [congruence|]. reflexivity.
Qed.

Lemma occurrences_skip2 c1 c2 d1 d2 pat s :
  c2 <> d2 ->
  occurrences (d1 :: d2 :: pat) (c1 :: c2 :: s) =
  occurrences (d1 :: d2 :: pat) (c2 :: s).
Proof.
intros Hne. cbn [occurrences starts_with].
destruct (N.eqb_spec d2 c2); [congruence|].
by rewrite andb_false_r.
Qed.

(** No tag other than the line break begins inside an escaped body. *)
Lemma occurrences_escaped_body d pat p z :
  d <> 98 ->
  occurrences (60 :: d :: pat) (escaped_body p ++ z) =
  occurrences (60 :: d :: pat) z.
Proof.
intros Hd. rewrite escaped_body_chars.
induction p as [|c p IH]; [done|].
cbn [flat_map]. rewrite <- app_assoc.
unfold escape_br_char at 1, escape_char.
destruct (N.eqb_spec c LF) as [->|H0].
{ eval_py. cbn [app].
  rewrite occurrences_skip2 by done.
  rewrite !occurrences_skip by done. exact IH. }
destruct (N.eqb_spec c 38) as [->|H1];
  [eval_py; cbn [app];
   rewrite !occurrences_skip by done; exact IH|].
destruct (N.eqb_spec c 60) as [->|H2];
  [eval_py; cbn [app];
   rewrite !occurrences_skip by done; exact IH|].
destruct (N.eqb_spec c 62) as [->|H3];
  [eval_py; cbn [app];
   rewrite !occurrences_skip by done; exact IH|].
destruct (N.eqb_spec c QUOT) as [->|H4];
  [eval_py; cbn [app];
   rewrite !occurrences_skip by done; exact IH|].
destruct (N.eqb_spec c APOS) as [->|H5];
  [eval_py; cbn [app];
   rewrite !occurrences_skip by done; exact IH|].
cbn [app]. rewrite occurrences_skip by done. exact IH.
Qed.


Lemma occurrences_fragment_p p z :
  occurrences (py "<p>") (html_fragment p ++ z) =
  S (occurrences (py "<p>") z).
Proof.
unfold html_fragment. rewrite <- !app_assoc.
change (py "<p>") with [60; 112; 62]. change (py "</p>") with [60; 47; 112; 62].
cbn [app]. cbn [occurrences starts_with N.eqb Pos.eqb andb Nat.add].
rewrite occurrences_escaped_body by done.
rewrite occurrences_skip2 by done.
by rewrite !occurrences_skip by done.
Qed.

Lemma occurrences_fragment_script p z :
  occurrences (py "<script>") (html_fragment p ++ z) =
  occurrences (py "<script>") z.
Proof.
unfold html_fragment. rewrite <- !app_assoc.
change (py "<p>") with [60; 112; 62]. change (py "</p>") with [60; 47; 112; 62].
change (py "<script>") with [60; 115; 99; 114; 105; 112; 116; 62].
cbn [app]. rewrite occurrences_skip2 by done.
rewrite !occurrences_skip by done.
rewrite occurrences_escaped_body by done.
rewrite occurrences_skip2 by done.
by rewrite !occurrences_skip by done.
Qed.

Lemma occurrences_join_fragments (k : nat) d pat ps :
  (forall p z, occurrences (60 :: d :: pat) (html_fragment p ++ z) =
               Nat.add k (occurrences (60 :: d :: pat) z)) ->
  occurrences (60 :: d :: pat) (join [LF] (map html_fragment ps)) =
  Nat.mul k (length ps).
Proof.
intros Hfrag. induction ps as [|p ps IH]; [simpl; lia|].
destruct ps as [|q ps].
- cbn [map join]. rewrite <- (app_nil_r (html_fragment p)), Hfrag.
  simpl. lia.
- change (join [LF] (map html_fragment (p :: q :: ps)))
    with (html_fragment p ++ [LF] ++ join [LF] (map html_fragment (q :: ps))).
  rewrite Hfrag. cbn [app]. rewrite occurrences_skip by done.
  rewrite IH. simpl length. lia.
Qed.


(** *** Substrings that survive the formatter *)

Lemma has_substring_nil m : has_substring m [] -> m = [].
Proof.
intros (a & b & E). symmetry in E.
apply app_eq_nil in E as [_ E]. by apply app_eq_nil in E as [-> _].
Qed.

Lemma has_substring_app_l m x y : has_substring m x -> has_substring m (x ++ y).
Proof.
intros (a & b & ->). exists a, (b ++ y). by rewrite <- !app_assoc.
Qed.

Lemma has_substring_app_r m x y : has_substring m y -> has_substring m (x ++ y).
Proof.
intros (a & b & ->). exists (x ++ a), b. by rewrite <- !app_assoc.
Qed.

Lemma has_substring_split_at c m x y :
  ~ In c m ->
  has_substring m (x ++ c :: y) -> has_substring m x \/ has_substring m y.
Proof.
intros Hc (a & b & E). symmetry in E.
apply app_eq_app in E as [l [[-> E]|[-> E]]].
- destruct l as [|c' l]; simpl in E.
  + destruct m as [|c' m]; [left; by exists [], x|].
    injection E as -> _. destruct Hc. by left.
  + injection E as -> ->. right. by exists l, b.
- apply app_eq_app in E as [l2 [[-> E]|[-> E]]].
  + destruct l2 as [|c' l2]; simpl in E.
    * rewrite app_nil_r. left. exists a, []. by rewrite app_nil_r.
    * injection E as -> _. destruct Hc.
      apply in_or_app. right. by left.
  + left. by exists a, l2.
Qed.

Lemma has_substring_skip_sep m sep : forall x y,
  m <> [] -> sep <> [] -> (forall c, In c sep -> ~ In c m) ->
  has_substring m (x ++ sep ++ y) -> has_substring m x \/ has_substring m y.
Proof.
induction sep as [|c sep IH]; intros x y Hm Hsep Hnot H; [done|].
apply has_substring_split_at in H as [H|H]; [by left| |apply Hnot; by left].
destruct sep as [|c' sep]; [by right|].
apply (IH [] y) in H as [H|H]; try done.
- by apply has_substring_nil in H.
- by right.
- intros d Hd. apply Hnot. by right.
Qed.

Lemma has_substring_join m sep pieces :
  m <> [] -> sep <> [] -> (forall c, In c sep -> ~ In c m) ->
  has_substring m (join sep pieces) ->
  exists p, In p pieces /\ has_substring m p.
Proof.
intros Hm Hsep Hnot. induction pieces as [|p pieces IH]; intros H.
- by apply has_substring_nil in H.
- destruct pieces as [|q pieces].
  + exists p. split; [by left|done].
  + change (join sep (p :: q :: pieces))
      with (p ++ sep ++ join sep (q :: pieces)) in H.
    apply has_substring_skip_sep in H as [H|H]; try done.
    * exists p. split; [by left|done].
    * destruct (IH H) as (p' & Hin & Hsub). exists p'. split; [by right|done].
Qed.

Lemma join_has_substring m sep pieces p :
  In p pieces -> has_substring m p -> has_substring m (join sep pieces).
Proof.
intros Hin Hsub. induction pieces as [|q pieces IH]; [done|].
destruct pieces as [|q' pieces].
- destruct Hin as [->|[]]. done.
- change (join sep (q :: q' :: pieces))
    with (q ++ sep ++ join sep (q' :: pieces)).
  destruct Hin as [->|Hin].
  + by apply has_substring_app_l.
  + do 2 apply has_substring_app_r. by apply IH.
Qed.

Lemma split_from_nonempty sep s : forall k, split_from sep k s <> [].
Proof.
induction s as [|c s IH]; intros k; simpl; [done|].
destruct k; [|apply IH].
destruct (starts_with sep (c :: s)); [done|].
by destruct (split_from sep 0 s).
Qed.

Lemma join_cons_head sep c p ps :
  join sep ((c :: p) :: ps) = c :: join sep (p :: ps).
Proof. by destruct ps. Qed.

(** Joining the pieces of a split with the separator gives the string
    back. *)
Lemma join_split_from sep s : forall k,
  sep <> [] -> join sep (split_from sep k s) = drop k s.
Proof.
induction s as [|c s IH]; intros k Hsep.
- by destruct k.
- destruct k as [|k]; [|apply IH; done].
  cbn [split_from drop].
  destruct (starts_with sep (c :: s)) eqn:E.
  + apply starts_with_spec in E as [r E].
    destruct sep as [|c' sep]; [done|]. injection E as <- ->.
    pose proof (split_from_nonempty (c :: sep) (sep ++ r)
                  (length (c :: sep) - 1)) as Hne.
    destruct (split_from _ _ _) as [|q qs] eqn:Es; [done|].
    change (join (c :: sep) ([] :: q :: qs))
      with ((c :: sep) ++ join (c :: sep) (q :: qs)).
    rewrite <- Es, IH by done. simpl. rewrite Nat.sub_0_r.
    by rewrite drop_app_length.
  + pose proof (split_from_nonempty sep s 0) as Hne.
    specialize (IH 0%nat Hsep).
    destruct (split_from sep 0 s) as [|q qs]; [done|].
    rewrite join_cons_head, IH. reflexivity.
Qed.

Lemma join_split sep s : sep <> [] -> join sep (split sep s) = s.
Proof. intros Hsep. unfold split. by rewrite join_split_from. Qed.


Lemma starts_with_reach old : forall u c v,
  starts_with old (u ++ c :: v) = true ->
  (length old <= length u)%nat \/ In c old.
Proof.
induction old as [|p old IH]; intros u c v H; [left; simpl; lia|].
destruct u as [|x u]; simpl in H;
  apply andb_true_iff in H as [Hp H]; apply N.eqb_eq in Hp as ->.
- right. by left.
- apply IH in H as [H|H]; [left; simpl; lia|right; by right].
Qed.

Lemma replace_from_through p old new m b :
  (forall c, In c m -> c <> p) ->
  replace_from (p :: old) new 0 (m ++ b) =
  m ++ replace_from (p :: old) new 0 b.
Proof.
induction m as [|c m IH]; intros Hm; [done|].
cbn [app replace_from starts_with].
destruct (N.eqb_spec p c) as [->|_].
- destruct (Hm c); [by left|done].
- cbn [andb]. rewrite IH; [done|]. intros d Hd. apply Hm. by right.
Qed.

Lemma replace_from_keeps old new m b :
  m <> [] -> old <> [] -> (forall c, In c m -> ~ In c old) ->
  forall a k, (k <= length a)%nat ->
  exists a', replace_from old new k (a ++ m ++ b) =
             a' ++ m ++ replace_from old new 0 b.
Proof.
intros Hm Hold Hnot. induction a as [|x a IH]; intros k Hk.
- assert (k = 0%nat) as -> by (simpl in Hk; lia).
  destruct old as [|p old]; [done|]. exists []. cbn [app].
  apply replace_from_through. intros c Hc ->.
  apply (Hnot p Hc). by left.
- destruct k as [|k].
  + cbn [app replace_from].
    destruct (starts_with old (x :: a ++ m ++ b)) eqn:E.
    * destruct m as [|c0 m0]; [done|].
      apply (starts_with_reach old (x :: a) c0 (m0 ++ b)) in E as [E|E].
      -- destruct (IH (length old - 1)%nat) as [a' Ha'];
           [simpl in E; lia|].
         exists (new ++ a'). by rewrite Ha', <- app_assoc.
      -- destruct (Hnot c0); [by left|done].
    * destruct (IH 0%nat) as [a' Ha']; [lia|].
      exists (x :: a'). by rewrite Ha'.
  + cbn [app replace_from]. apply IH. simpl in Hk. lia.
Qed.

(** A run of characters none of which occurs in [old] is left in place
    by [replace]. *)
Lemma replace_keeps old new m s :
  m <> [] -> old <> [] -> (forall c, In c m -> ~ In c old) ->
  has_substring m s -> has_substring m (replace old new s).
Proof.
intros Hm Hold Hnot (a & b & ->).
destruct old as [|p old]; [done|]. unfold replace.
destruct (replace_from_keeps (p :: old) new m b Hm Hold Hnot a 0%nat)
  as [a' ->]; [lia|]. by exists a', (replace_from (p :: old) new 0 b).
Qed.

Lemma lstrip_keeps c m b :
  isspace c = false ->
  forall a, exists a', lstrip (a ++ (c :: m) ++ b) = a' ++ (c :: m) ++ b.
Proof.
intros Hc. induction a as [|x a [a' IH]]; simpl.
- exists []. simpl. by rewrite Hc.
- destruct (isspace x); [by exists a'|]. by exists (x :: a).
Qed.

Lemma lstrip_head s c : head (lstrip s) = Some c -> isspace c = false.
Proof.
induction s as [|x s IH]; simpl; [done|].
destruct (isspace x) eqn:E; [done|]. simpl. by intros [= <-].
Qed.

Lemma lstrip_suffix s : exists ws, s = ws ++ lstrip s.
Proof.
induction s as [|x s [ws IH]]; simpl; [by exists []|].
destruct (isspace x); [|by exists []].
exists (x :: ws). simpl. by rewrite <- IH.
Qed.

Lemma strip_prefix s : exists ws, lstrip s = strip s ++ ws.
Proof.
unfold strip, rstrip.
destruct (lstrip_suffix (rev (lstrip s))) as [ws E].
exists (rev ws). rewrite <- rev_app_distr, <- E. by rewrite rev_involutive.
Qed.

Lemma strip_head s c : head (strip s) = Some c -> isspace c = false.
Proof.
intros H. apply (lstrip_head s).
destruct (strip_prefix s) as [ws ->].
by destruct (strip s).
Qed.

Lemma last_rev_head (z : pystr) : last (rev z) = head z.
Proof. destruct z as [|x z]; [done|]. simpl. by rewrite last_snoc. Qed.

Lemma strip_last s c : last (strip s) = Some c -> isspace c = false.
Proof.
unfold strip, rstrip. rewrite last_rev_head. apply lstrip_head.
Qed.

(** A run of characters free of whitespace is left in place by
    [strip]. *)
Lemma strip_keeps m s :
  m <> [] -> (forall c, In c m -> isspace c = false) ->
  has_substring m s -> has_substring m (strip s).
Proof.
intros Hm Hns (a & b & ->).
destruct m as [|c m0] eqn:Em; [done|]. rewrite <- Em in *.
destruct (rev m) as [|d m1] eqn:Er.
{ apply (f_equal (@length N)) in Er. rewrite length_rev, Em in Er. done. }
assert (Hc : isspace c = false) by (apply Hns; rewrite Em; by left).
assert (Hd : isspace d = false).
{ apply Hns, in_rev. rewrite Er. by left. }
unfold strip, rstrip.
rewrite Em. destruct (lstrip_keeps c m0 b Hc a) as [a' ->].
rewrite <- Em, !rev_app_distr, Er, <- app_assoc.
destruct (lstrip_keeps d m1 (rev a') Hd (rev b)) as [b' ->].
rewrite <- Er, !rev_app_distr, !rev_involutive, <- app_assoc.
by exists a', (rev b').
Qed.

Lemma isspace_LF_CR c : isspace c = false -> c <> LF /\ c <> CR.
Proof. intros H. split; intros ->; discriminate. Qed.

Lemma normalize_newlines_keeps m s :
  m <> [] -> (forall c, In c m -> isspace c = false) ->
  has_substring m s -> has_substring m (normalize_newlines s).
Proof.
intros Hm Hns H. unfold normalize_newlines.
apply replace_keeps; [done|done| |apply replace_keeps; try done].
- intros c Hc [<-|[]]. by destruct (isspace_LF_CR CR (Hns _ Hc)).
- intros c Hc [<-|[<-|[]]].
  + by destruct (isspace_LF_CR CR (Hns _ Hc)).
  + by destruct (isspace_LF_CR LF (Hns _ Hc)).
Qed.

Lemma stripped_nonempty_keeps m pieces q :
  m <> [] -> (forall c, In c m -> isspace c = false) ->
  In q pieces -> has_substring m q ->
  exists p, In p (stripped_nonempty pieces) /\ has_substring m p.
Proof.
intros Hm Hns Hin Hsub. exists (strip q).
pose proof (strip_keeps m q Hm Hns Hsub) as Hs. split; [|done].
unfold stripped_nonempty. apply in_map, filter_In. split; [done|].
destruct (strip q); [|done]. by apply has_substring_nil in Hs.
Qed.

(** A run of characters free of whitespace that occurs in the text
    occurs in one of its paragraphs. *)
Lemma paragraphs_keep m text :
  m <> [] -> (forall c, In c m -> isspace c = false) ->
  has_substring m (default [] text) ->
  exists p, In p (paragraphs text) /\ has_substring m p.
Proof.
intros Hm Hns H. apply normalize_newlines_keeps in H; [|done..].
unfold paragraphs, paragraphs_of.
set (t := normalize_newlines (default [] text)) in *.
assert (Hsplit : forall sep, sep <> [] -> (forall c, In c sep -> c = LF) ->
  exists p, In p (stripped_nonempty (split sep t)) /\ has_substring m p).
{ intros sep Hsep Hlf. rewrite <- (join_split sep t Hsep) in H.
  apply has_substring_join in H as (q & Hin & Hq); [|done|done|].
  - by apply (stripped_nonempty_keeps m _ q).
  - intros c Hc Hcm. rewrite (Hlf c Hc) in Hcm.
    by destruct (isspace_LF_CR LF (Hns _ Hcm)). }
destruct (py_in [LF; LF] t); apply Hsplit; try done.
- intros c [<-|[<-|[]]]; done.
- intros c [<-|[]]; done.
Qed.

Lemma html_keeps m ps p :
  In p ps -> has_substring m p ->
  has_substring (flat_map escape_br_char m)
    (join [LF] (map html_fragment ps)).
Proof.
intros Hin (a & b & ->).
apply (join_has_substring _ _ _ (html_fragment (a ++ m ++ b)));
  [by apply in_map|].
unfold html_fragment. apply has_substring_app_r, has_substring_app_l.
rewrite escaped_body_chars, !flat_map_app. by eexists _, _.
Qed.

End Strings.

(** ** The conversation store *)

Section Store.
Implicit Types (st : Store) (sid : pystr) (items : list Turn).

Lemma add_message_at_insert ts sid r t st :
  add_message_at ts sid r t st =
  <[sid := get_all st sid ++ [turn_at ts r t]]> st.
Proof.
unfold add_message_at, get_all, turn_at.
destruct (st !! sid) as [items|] eqn:E; simpl.
- apply map_eq; intros k. destruct (decide (sid = k)) as [->|Hne].
  + rewrite lookup_alter_eq, lookup_insert_eq, E. reflexivity.
  + rewrite lookup_alter_ne, lookup_insert_ne by done. reflexivity.
- apply map_eq; intros k. destruct (decide (sid = k)) as [->|Hne].
  + rewrite lookup_alter_eq, !lookup_insert_eq. reflexivity.
  + rewrite lookup_alter_ne, !lookup_insert_ne by done. reflexivity.
Qed.

Lemma get_all_add_same ts sid r t st :
  get_all (add_message_at ts sid r t st) sid =
  get_all st sid ++ [turn_at ts r t].
Proof.
rewrite add_message_at_insert. unfold get_all at 1.
rewrite lookup_insert_eq. reflexivity.
Qed.

Lemma get_all_add_other ts sid sid' r t st :
  sid <> sid' ->
  get_all (add_message_at ts sid r t st) sid' = get_all st sid'.
Proof.
intros Hne. rewrite add_message_at_insert. unfold get_all at 1 3.
rewrite lookup_insert_ne by done. reflexivity.
Qed.

Lemma session_set_dom st : session_set st = dom st.
Proof.
unfold session_set, sessions. apply set_eq; intros k.
rewrite elem_of_list_to_set, elem_of_dom, list_elem_of_fmap.
split.
- intros [[k' v] [-> Hin]]. apply elem_of_map_to_list in Hin. eauto.
- intros [v Hv]. exists (k, v). split; [done|].
  by apply elem_of_map_to_list.
Qed.

Lemma slice_from_neg {A} (k : Z) (l : list A) :
  0 < k -> k < Z.of_nat (length l) ->
  slice_from (- k) l = last_n (Z.to_nat k) l.
Proof.
intros Hk Hlen. unfold slice_from, last_n.
destruct (Z.ltb_spec (- k) 0); [|lia].
f_equal. lia.
Qed.

(** For a positive limit the result is the last [min limit length]
    turns, in their stored order. *)
Lemma get_recent_pos st sid k :
  0 < k ->
  get_recent st sid k =
  last_n (Z.to_nat (Z.min k (Z.of_nat (length (get_all st sid)))))
    (get_all st sid).
Proof.
intros Hk. unfold get_recent, get_all.
set (items := default [] (st !! sid)).
destruct (Z.eqb_spec k 0) as [->|_]; [lia|]. simpl.
destruct (Z.gtb_spec (Z.of_nat (length items)) k) as [Hgt|Hle].
- rewrite slice_from_neg by lia. f_equal. lia.
- unfold last_n.
  replace (length items - _)%nat with 0%nat by lia. reflexivity.
Qed.

Lemma get_recent_zero st sid : get_recent st sid 0 = get_all st sid.
Proof. reflexivity. Qed.

Lemma get_recent_short st sid k :
  Z.of_nat (length (get_all st sid)) <= k ->
  get_recent st sid k = get_all st sid.
Proof.
intros Hle. unfold get_recent, get_all in *.
destruct (Z.gtb_spec (Z.of_nat (length (default [] (st !! sid)))) k);
  [lia|]. by rewrite andb_false_r.
Qed.

Lemma get_recent_unknown st sid k :
  st !! sid = None -> get_recent st sid k = [].
Proof.
intros E. unfold get_recent. rewrite E.
destruct (negb (k =? 0) && _); [|done].
unfold slice_from. apply drop_nil.
Qed.

(** A negative limit passes the guard and the slice then drops the
    oldest [-limit] turns. *)
Lemma get_recent_neg st sid k :
  k < 0 -> get_recent st sid k = drop (Z.to_nat (- k)) (get_all st sid).
Proof.
intros Hk. unfold get_recent, get_all.
set (items := default [] (st !! sid)).
destruct (Z.eqb_spec k 0) as [->|_]; [lia|]. simpl.
destruct (Z.gtb_spec (Z.of_nat (length items)) k); [|lia].
unfold slice_from. destruct (Z.ltb_spec (- k) 0); [lia|].
destruct (Z.min_spec (- k) (Z.of_nat (length items))) as [[_ ->]|[Hge ->]].
- reflexivity.
- rewrite !drop_ge by lia. reflexivity.
Qed.

(** C1: on a session holding three turns, [get_recent] with limit [-1]
    returns only the last two of them, where the full history is
    expected of a limit that is not positive. *)
Theorem get_recent_negative_limit :
  get_all sample_store (py "s1") = sample_turns /\
  get_recent sample_store (py "s1") (-1) = drop 1 sample_turns /\
  get_recent sample_store (py "s1") (-1) <> get_all sample_store (py "s1").
Proof.
assert (E : get_all sample_store (py "s1") = sample_turns).
{ unfold get_all, sample_store. by rewrite lookup_singleton_eq. }
split; [done|].
rewrite get_recent_neg, E by lia. split; [done|].
discriminate.
Qed.
End Store.

Section StoreCalls.
Variable env : Env.
Implicit Types (w : World) (sid : pystr) (calls : list (pystr * pystr)).

Lemma add_message_run sid r t w :
  add_message env sid r t w =
  (Returned tt,
   {| memory := add_message_at (clock env (ticks w)) sid r t (memory w);
      ticks := S (ticks w); llm_calls := llm_calls w |}).
Proof. reflexivity. Qed.

Lemma add_messages_run sid calls : forall w,
  exists w',
    add_messages env sid calls w = (Returned tt, w') /\
    ticks w' = (ticks w + length calls)%nat /\
    llm_calls w' = llm_calls w /\
    get_all (memory w') sid = get_all (memory w) sid ++ imap (stored env w) calls /\
    forall sid', sid <> sid' ->
      get_all (memory w') sid' = get_all (memory w) sid'.
Proof.
induction calls as [|[r t] calls IH]; intros w.
- exists w. simpl. rewrite app_nil_r.
  repeat split; auto with lia.
- simpl add_messages. unfold bind at 1. rewrite add_message_run.
  match goal with |- context [add_messages _ _ _ ?w1] =>
    destruct (IH w1) as (w' & Hrun & Htk & Hlog & Hsame & Hother) end.
  exists w'. simpl in *. repeat split.
  + exact Hrun.
  + lia.
  + exact Hlog.
  + rewrite Hsame, get_all_add_same, <- app_assoc. f_equal.
    simpl. unfold stored at 2. simpl. rewrite Nat.add_0_r. f_equal.
    apply imap_ext. intros i c _. unfold stored. simpl.
    do 2 f_equal. lia.
  + intros sid' Hne. rewrite Hother by done.
    by apply get_all_add_other.
Qed.

(** C5: on a session not yet in the store, [N] calls of [add_message]
    leave exactly [N] turns, in the order of the calls and with the role
    and text of each call; their timestamps never decrease when the
    clock does not run backwards. *)
Theorem add_messages_history sid calls w :
  memory w !! sid = None ->
  monotone (clock env) ->
  let turns := get_all (memory (add_messages env sid calls w).2) sid in
  (add_messages env sid calls w).1 = Returned tt /\
  length turns = length calls /\
  map said turns = calls /\
  forall i j ti tj, (i <= j)%nat ->
    turns !! i = Some ti -> turns !! j = Some tj ->
    timestamp ti <= timestamp tj.
Proof.
intros Hfresh Hmono.
destruct (add_messages_run sid calls w)
  as (w' & Hrun & _ & _ & Hsame & _).
rewrite Hrun. simpl.
assert (E : get_all (memory w') sid = imap (stored env w) calls).
{ rewrite Hsame. unfold get_all. by rewrite Hfresh. }
rewrite E. repeat split.
- apply length_imap.
- apply list_eq; intros i.
  change (map said) with (fmap (M := list) said).
  rewrite list_lookup_fmap, list_lookup_imap.
  by destruct (calls !! i) as [[r t]|].
- intros i j ti tj Hij Hi Hj.
  rewrite list_lookup_imap in Hi, Hj.
  destruct (calls !! i) as [ci|]; [|done].
  destruct (calls !! j) as [cj|]; [|done].
  simpl in Hi, Hj. inversion Hi. inversion Hj. simpl.
  apply Hmono. lia.
Qed.

(** C9: for distinct session ids [s] and [t], [add_message] on [s] and
    [clear] of [s] leave the history of [t] as it was; the set of
    session ids gains [s] in the first case and loses [s] in the
    second, and is otherwise unchanged. *)
Theorem other_sessions_untouched (s t r x : pystr) w :
  s <> t ->
  let added := memory (add_message env s r x w).2 in
  let cleared := clear s (memory w) in
  get_all added t = get_all (memory w) t /\
  session_set added = {[s]} ∪ session_set (memory w) /\
  get_all cleared t = get_all (memory w) t /\
  session_set cleared = session_set (memory w) ∖ {[s]}.
Proof.
intros Hne. rewrite add_message_run. simpl. repeat split.
- by apply get_all_add_other.
- rewrite !session_set_dom, add_message_at_insert.
  apply dom_insert_L.
- unfold get_all, clear. by rewrite lookup_delete_ne.
- rewrite !session_set_dom. apply dom_delete_L.
Qed.
End StoreCalls.

Lemma add_messages_history_witness :
  let env := sample_env None in
  let w := {| memory := ∅; ticks := 0; llm_calls := [] |} in
  let calls := [(py "user", py "Hi"); (py "assistant", py "Hello!")] in
  let turns := get_all (memory (add_messages env (py "s1") calls w).2) (py "s1") in
  length turns = 2%nat /\ map said turns = calls.
Proof.
intros env w calls turns.
assert (Hfresh : memory w !! py "s1" = None) by apply lookup_empty.
assert (Hmono : monotone (clock env)).
{ intros i j Hij. simpl. lia. }
destruct (add_messages_history env (py "s1") calls w Hfresh Hmono)
  as (_ & Hlen & Hsaid & _).
split; [exact Hlen | exact Hsaid].
Defined.

Lemma other_sessions_untouched_witness :
  get_all (memory (add_message (sample_env None) (py "s2") (py "user")
                     (py "Hi") sample_world).2) (py "s1")
  = get_all sample_store (py "s1").
Proof.
assert (Hne : py "s2" <> py "s1") by discriminate.
exact (proj1 (other_sessions_untouched (sample_env None) (py "s2") (py "s1")
                (py "user") (py "Hi") sample_world Hne)).
Defined.

(** ** The visual formatter *)

Section Formatter.
Local Open Scope N_scope.
Implicit Types (text : option pystr).

Lemma fold_visual_step ps : forall acc,
  fold_left visual_step ps acc =
  (acc.1 ++ map html_fragment ps, acc.2 ++ map paragraph_segment ps).
Proof.
induction ps as [|p ps IH]; intros [hs ss]; simpl.
- by rewrite !app_nil_r.
- rewrite IH. simpl. by rewrite <- !app_assoc.
Qed.

Lemma build_visual_payload_eq text :
  build_visual_payload text =
  {| html := match paragraphs text with
             | [] => py "<p>(empty)</p>"
             | _ :: _ => join [LF] (map html_fragment (paragraphs text))
             end;
     markdown := join [LF; LF] (paragraphs text);
     segments := map paragraph_segment (paragraphs text) |}.
Proof.
unfold build_visual_payload, paragraphs.
replace (match text with Some t => t | None => [] end)
  with (default [] text) by (by destruct text).
rewrite fold_visual_step. cbn [fst snd app].
by destruct (paragraphs_of _).
Qed.

Lemma segments_all_paragraph text :
  Forall (fun s => seg_type s = py "paragraph")
    (segments (build_visual_payload text)).
Proof.
rewrite build_visual_payload_eq. cbn [segments].
apply Forall_forall. intros s Hin.
apply list_elem_of_fmap in Hin as [p [-> _]]. reflexivity.
Qed.

(** C7: the text "Line one.", blank line, "Line two", newline,
    "still two." has exactly two paragraphs; the HTML output is the
    fragments "<p>Line one.</p>" and "<p>Line two<br>still two.</p>"
    joined by a newline, there is one segment for each paragraph, and the
    markdown output is the input text. *)
Theorem visual_example :
  let v := build_visual_payload (Some sample_text) in
  paragraphs (Some sample_text) =
    [py "Line one."; py "Line two" ++ [LF] ++ py "still two."] /\
  html v =
    join [LF] [py "<p>Line one.</p>"; py "<p>Line two<br>still two.</p>"] /\
  map seg_text (segments v) = paragraphs (Some sample_text) /\
  markdown v = sample_text.
Proof. vm_compute. repeat split. Qed.

(** C8: the HTML output is made of one fragment for each paragraph, the
    paragraph passed through [html.escape], then its newlines turned into
    "<br>", then wrapped in "<p>" and "</p>"; [html.escape] rewrites the
    ampersand, the two angle brackets and the two quote characters and
    nothing else.  The output never contains "<script>", and it contains
    "&lt;script&gt;" whenever the input contains "<script>". *)
Theorem html_output_escaped text :
  let v := build_visual_payload text in
  html v =
    match paragraphs text with
    | [] => py "<p>(empty)</p>"
    | _ :: _ =>
        join [LF]
          (map (fun p =>
                  py "<p>" ++ replace [LF] (py "<br>") (html_escape p) ++
                  py "</p>")
             (paragraphs text))
    end /\
  (forall p, html_escape p = flat_map escape_char p) /\
  py_in (py "<script>") (html v) = false /\
  (py_in (py "<script>") (default [] text) = true ->
   py_in (py "&lt;script&gt;") (html v) = true).
Proof.
intros v. unfold v. rewrite build_visual_payload_eq. cbn [html].
split; [reflexivity|]. split; [exact html_escape_chars|]. split.
- rewrite py_in_occurrences.
  destruct (paragraphs text) as [|p ps] eqn:E; [reflexivity|].
  change (py "<script>") with [60; 115; 99; 114; 105; 112; 116; 62].
  rewrite (occurrences_join_fragments 0); [reflexivity|].
  intros q z. apply occurrences_fragment_script.
- intros Hin. apply py_in_spec in Hin. apply py_in_spec.
  apply paragraphs_keep in Hin as (p & Hp & Hsub).
  + destruct (paragraphs text) as [|p0 ps] eqn:E; [done|].
    apply (html_keeps _ _ p Hp Hsub).
  + done.
  + intros c Hc. vm_compute in Hc.
    repeat destruct Hc as [<-|Hc]; try reflexivity. done.
Qed.

(** A text that begins with the word "Error" has at least one
    paragraph. *)
Lemma error_text_segments rest :
  segments (build_visual_payload (Some (py "Error" ++ rest))) <> [].
Proof.
rewrite build_visual_payload_eq. cbn [segments].
destruct (paragraphs_keep (py "Error") (Some (py "Error" ++ rest)))
  as (p & Hp & _).
- done.
- intros c Hc. vm_compute in Hc.
  repeat destruct Hc as [<-|Hc]; try reflexivity. done.
- by exists [], rest.
- by destruct (paragraphs _).
Qed.

Lemma paragraphs_trimmed text p : In p (paragraphs text) -> is_trimmed p.
Proof.
unfold paragraphs, paragraphs_of.
assert (H : forall pieces, In p (stripped_nonempty pieces) -> is_trimmed p).
{ intros pieces Hin. unfold stripped_nonempty in Hin.
  apply in_map_iff in Hin as (q & <- & Hq).
  apply filter_In in Hq as [_ Hq].
  repeat split.
  - by destruct (strip q).
  - apply strip_head.
  - apply strip_last. }
destruct (py_in _ _); apply H.
Qed.

(** C10, as amended: the markdown output is the segment texts joined by
    a blank line; every segment has type paragraph and a text that is not
    empty and has no whitespace at either end; when there is at least one
    segment the HTML output holds as many "<p>" fragments as there are
    segments, and when there is none the HTML output is the single
    placeholder fragment "<p>(empty)</p>". *)
Theorem visual_payload_consistent text :
  let v := build_visual_payload text in
  markdown v = join [LF; LF] (map seg_text (segments v)) /\
  Forall (fun s => seg_type s = py "paragraph" /\ is_trimmed (seg_text s))
    (segments v) /\
  (segments v <> [] ->
   occurrences (py "<p>") (html v) = length (segments v)) /\
  (segments v = [] ->
   html v = py "<p>(empty)</p>" /\ occurrences (py "<p>") (html v) = 1%nat).
Proof.
intros v. unfold v. rewrite build_visual_payload_eq. cbn [html markdown segments].
assert (Etexts : map seg_text (map paragraph_segment (paragraphs text))
                 = paragraphs text).
{ rewrite map_map. apply map_id. }
repeat split.
- by rewrite Etexts.
- apply List.Forall_forall. intros s Hin.
  apply in_map_iff in Hin as (p & <- & Hp). split; [done|].
  by apply (paragraphs_trimmed text).
- intros Hne. destruct (paragraphs text) as [|p ps] eqn:E; [done|].
  change (py "<p>") with [60; 112; 62].
  rewrite (occurrences_join_fragments 1), length_map; [lia|].
  intros q z. apply occurrences_fragment_p.
- destruct (paragraphs text); done.
- destruct (paragraphs text); done.
Qed.

(** C10 as stated fails on the empty text: there is no segment, and the
    HTML output holds the one placeholder fragment. *)
Lemma visual_payload_empty_counts :
  let v := build_visual_payload (Some []) in
  length (segments v) <> occurrences (py "<p>") (html v).
Proof. vm_compute. discriminate. Qed.

End Formatter.

Lemma html_output_escaped_witness :
  py_in (py "&lt;script&gt;")
    (html (build_visual_payload (Some (py "<script>alert(1)</script>"))))
  = true.
Proof.
apply (html_output_escaped (Some (py "<script>alert(1)</script>"))).
reflexivity.
Defined.

Lemma visual_payload_consistent_witness :
  let v := build_visual_payload (Some sample_text) in
  occurrences (py "<p>") (html v) = length (segments v).
Proof.
apply (visual_payload_consistent (Some sample_text)).
vm_compute. discriminate.
Defined.

(** ** The prompt builder *)

Section Prompt.
Implicit Types (st : Store) (sid : pystr) (items : list Turn).

Lemma str_eqb_eq (a b : pystr) : str_eqb a b = true <-> a = b.
Proof.
revert b. induction a as [|x a IH]; intros [|y b]; simpl; try easy.
rewrite andb_true_iff, N.eqb_eq, IH. split.
- by intros [-> ->].
- by intros [= -> ->].
Qed.

Lemma fold_history_step recent : forall parts,
  fold_left history_step recent parts =
  parts ++ map history_line (List.filter (fun t => negb (is_system t)) recent).
Proof.
induction recent as [|t recent IH]; intros parts; simpl.
- by rewrite app_nil_r.
- rewrite IH. unfold history_step, is_system.
  destruct (str_eqb (role t) (py "system")); simpl; [done|].
  by rewrite <- app_assoc.
Qed.

Lemma filter_known_roles (window : list Turn) :
  Forall (fun t => known_role t = true) window ->
  List.filter (fun t => negb (is_system t)) window =
  List.filter is_conversational window.
Proof.
induction 1 as [|t window Ht _ IH]; simpl; [done|].
rewrite IH. unfold known_role in Ht.
destruct (is_system t) eqn:Es; simpl.
- unfold is_system, is_conversational in *.
  apply str_eqb_eq in Es. rewrite Es. reflexivity.
- simpl in Ht. by rewrite Ht.
Qed.

Lemma history_line_conversational t :
  is_conversational t = true ->
  history_line t = py "User: " ++ strip (text t) \/
  history_line t = py "Assistant: " ++ strip (text t).
Proof.
unfold is_conversational, history_line.
intros [E|E]%orb_true_iff; apply str_eqb_eq in E; rewrite E; auto.
Qed.

Lemma last_n_nonempty {A} (n : nat) (l : list A) :
  l <> [] -> (0 < n)%nat -> last_n n l <> [].
Proof.
intros Hl Hn E. apply (f_equal length) in E.
unfold last_n in E. rewrite length_drop in E. simpl in E.
destruct l; [done|]. simpl in E. lia.
Qed.

Lemma length_filter_le {A} (f : A -> bool) (l : list A) :
  (length (List.filter f l) <= length l)%nat.
Proof.
induction l as [|x l IH]; simpl; [lia|]. destruct (f x); simpl; lia.
Qed.

(** C2: for a session id that is given and present in the store with at
    least one turn (as [store_ok] has it for every store the handlers
    build), the history section of the prompt is the header,
    then one line "<Role>: <trimmed text>" for each user or assistant
    turn among the last [memory_size] turns, in order, then the blank
    line.  System turns in that window are passed over, so there may be
    fewer than [memory_size] lines, and when the window holds system
    turns only the section is the header followed by the blank line. *)
Theorem history_section st sid items ms msg :
  truthy sid = true ->
  st !! sid = Some items ->
  items <> [] ->
  0 < ms ->
  let window :=
    last_n (Z.to_nat (Z.min ms (Z.of_nat (length items)))) items in
  Forall (fun t => known_role t = true) window ->
  let shown := List.filter is_conversational window in
  history_block st sid ms = history_header :: map history_line shown ++ [[]] /\
  (forall t, In t shown ->
     history_line t = py "User: " ++ strip (text t) \/
     history_line t = py "Assistant: " ++ strip (text t)) /\
  (length shown <= Z.to_nat ms)%nat /\
  (Forall (fun t => is_system t = true) window ->
     history_block st sid ms = [history_header; []]) /\
  build_prompt_with_context st (Some sid) msg ms =
    join [LF]
      (system_block st sid ++ history_block st sid ms ++
       [py "User: " ++ strip msg; py "Assistant:"]).
Proof.
intros Hsid Hlook Hne Hms window Hroles shown.
assert (Hrecent : get_recent st sid ms = window).
{ rewrite get_recent_pos by done. unfold get_all. by rewrite Hlook. }
assert (Hwin : window <> []).
{ apply last_n_nonempty; [done|]. destruct items; [done|]. simpl. lia. }
assert (Hblock : history_block st sid ms =
                 history_header :: map history_line shown ++ [[]]).
{ unfold history_block. rewrite Hrecent.
  destruct window as [|t0 window0] eqn:Ew; [done|].
  rewrite fold_history_step, filter_known_roles by done. reflexivity. }
repeat split.
- exact Hblock.
- intros t Hin. apply history_line_conversational.
  by apply filter_In in Hin as [_ ?].
- etransitivity; [apply length_filter_le|].
  unfold window, last_n. rewrite length_drop. lia.
- intros Hsys. rewrite Hblock. unfold shown.
  replace (List.filter is_conversational window) with (@nil Turn); [done|].
  clear -Hsys. induction Hsys as [|t l Ht _ IH]; simpl; [done|].
  unfold is_system, is_conversational in *. apply str_eqb_eq in Ht.
  by rewrite Ht.
- unfold build_prompt_with_context. rewrite Hsid. simpl.
  by rewrite <- !app_assoc.
Qed.

(** C6: for a session holding a system turn "Be concise.", a user turn
    "Hi" and an assistant turn "Hello!", the prompt built for the new
    message "How are you?" with memory size 6 is, line by line: the
    system header, "Be concise.", a blank line, the history header,
    "User: Hi", "Assistant: Hello!", a blank line, "User: How are you?"
    and last "Assistant:". *)
Theorem prompt_example st sid (t1 t2 t3 : Z) :
  truthy sid = true ->
  st !! sid =
    Some [turn_at t1 (py "system") (py "Be concise.");
          turn_at t2 (py "user") (py "Hi");
          turn_at t3 (py "assistant") (py "Hello!")] ->
  build_prompt_with_context st (Some sid) (py "How are you?") 6 =
  join [LF]
    [py "System instructions:"; py "Be concise."; [];
     history_header; py "User: Hi"; py "Assistant: Hello!"; [];
     py "User: How are you?"; py "Assistant:"].
Proof.
intros Hsid Hlook.
unfold build_prompt_with_context, system_block, history_block,
  get_all, get_recent.
rewrite Hsid, Hlook. reflexivity.
Qed.

End Prompt.

Lemma history_section_witness :
  history_block sample_store (py "s1") 3 =
  [history_header; py "User: Hi"; py "Assistant: Hello!"; []].
Proof.
assert (Hsid : truthy (py "s1") = true) by reflexivity.
assert (Hlook : sample_store !! py "s1" = Some sample_turns)
  by apply lookup_singleton_eq.
assert (Hne : sample_turns <> []) by discriminate.
assert (Hms : 0 < 3) by lia.
assert (Hroles : Forall (fun t => known_role t = true)
          (last_n (Z.to_nat (Z.min 3 (Z.of_nat (length sample_turns))))
             sample_turns)).
{ repeat constructor. }
exact (proj1 (history_section sample_store (py "s1") sample_turns 3 []
                Hsid Hlook Hne Hms Hroles)).
Defined.

Lemma prompt_example_witness :
  build_prompt_with_context sample_store (Some (py "s1"))
    (py "How are you?") 6 =
  join [LF]
    [py "System instructions:"; py "Be concise."; [];
     history_header; py "User: Hi"; py "Assistant: Hello!"; [];
     py "User: How are you?"; py "Assistant:"].
Proof.
apply (prompt_example sample_store (py "s1") 1 2 3).
- reflexivity.
- apply lookup_singleton_eq.
Defined.

(** ** The handler *)

Section Chat.
Variable env : Env.
Implicit Types (req : ChatRequest) (w : World).

Local Arguments py _%_string : simpl never.
Local Arguments build_visual_payload : simpl never.
Local Arguments build_prompt_with_context : simpl never.
Local Arguments add_message_at : simpl never.
Local Arguments str_of_int : simpl never.

Local Ltac run_chat :=
  cbv beta iota zeta delta
    [bind ret add_message now try_except read_memory call_model];
  cbn [fst snd memory ticks llm_calls].

(** C3: with no API key configured, [chat] returns the fixed
    missing-key response, sends nothing to the model, and changes the
    store at most by the system turn appended before the key is looked
    at; the message of the request is not stored. *)
Theorem chat_without_key req w :
  opt_truthy (GEMINI_API_KEY env) = false ->
  exists resp w',
    chat env req w = (Returned resp, w') /\
    response resp = missing_key_text /\
    r_html resp =
      py "<p><strong>Server is missing GEMINI_API_KEY.</strong> Please set it in .env.</p>" /\
    r_markdown resp =
      py "**Server is missing GEMINI_API_KEY.** Please set it in .env." /\
    r_segments resp =
      [{| seg_type := py "error"; seg_text := missing_key_text |}] /\
    llm_calls w' = llm_calls w /\
    match system req with
    | Some (c :: s) =>
        exists ts,
          memory w' =
          add_message_at ts (r_session_id resp) (py "system") (c :: s)
            (memory w)
    | _ => memory w' = memory w
    end.
Proof.
intros Hkey. unfold chat.
destruct (session_id req) as [[|c s]|];
  destruct (system req) as [[|c' s']|];
  rewrite Hkey; change (negb false) with true; run_chat.
all: do 2 eexists; repeat split.
all: cbn [memory r_session_id]; eauto.
Qed.

(** C4: when the key is configured and the model raises on the prompt it
    is sent, [chat] still returns a response and raises nothing: the
    response text is the error message with the detail of the exception,
    formatted by [build_visual_payload] into at least one segment, all of
    type paragraph, and the session gains the user turn followed by an
    assistant turn holding that error message. *)
Theorem chat_model_failure req w e prompt :
  opt_truthy (GEMINI_API_KEY env) = true ->
  last (llm_calls (chat env req w).2) = Some prompt ->
  generate_content env (length (llm_calls w)) prompt = inl e ->
  let err_text := py "Error communicating with Gemini API: " ++ e in
  let visual := build_visual_payload (Some err_text) in
  exists resp,
    (chat env req w).1 = Returned resp /\
    response resp = err_text /\
    r_html resp = html visual /\
    r_markdown resp = markdown visual /\
    r_segments resp = segments visual /\
    r_segments resp <> [] /\
    Forall (fun s => seg_type s = py "paragraph") (r_segments resp) /\
    llm_calls (chat env req w).2 = llm_calls w ++ [prompt] /\
    map said (get_all (memory (chat env req w).2) (r_session_id resp)) =
      map said (get_all (memory w) (r_session_id resp)) ++
      match system req with
      | Some (c :: s) => [(py "system", c :: s)]
      | _ => []
      end ++ [(py "user", message req); (py "assistant", err_text)].
Proof.
intros Hkey Hlast Hgen err_text visual. revert Hlast. unfold chat.
destruct (session_id req) as [[|c s]|];
  destruct (system req) as [[|c' s']|];
  rewrite Hkey; change (negb true) with false; run_chat.
all: match goal with |- context [generate_content ?en ?n ?p] =>
       destruct (generate_content en n p) as [e'|r] eqn:E end.
all: cbn [fst snd memory ticks llm_calls]; rewrite last_snoc;
  intros [= <-].
all: pose proof (eq_trans (eq_sym E) Hgen) as Heq; try discriminate Heq.
all: injection Heq as ->.
all: eexists; repeat split.
all: cbn [r_session_id r_segments].
all: try apply segments_all_paragraph.
all: try apply error_text_segments.
all: rewrite !get_all_add_same, !map_app; cbn [map app];
  rewrite <- ?app_assoc; reflexivity.
Qed.

(** The store invariant is established by the empty store and kept by
    every operation the handlers perform. *)
Lemma store_ok_empty : store_ok ∅.
Proof. intros sid items H. by rewrite lookup_empty in H. Qed.

Lemma add_message_at_ok ts sid r t st :
  store_ok st -> truthy sid = true -> known_role (turn_at ts r t) = true ->
  store_ok (add_message_at ts sid r t st).
Proof.
intros Hok Hsid Hrole k items. rewrite add_message_at_insert.
destruct (decide (sid = k)) as [<-|Hne].
- rewrite lookup_insert_eq. intros [= <-]. split; [done|]. split.
  + by destruct (get_all st sid).
  + apply Forall_app. split; [|by repeat constructor].
    unfold get_all. destruct (st !! sid) as [old|] eqn:E; [|constructor].
    by apply (Hok sid old).
- rewrite lookup_insert_ne by done. apply Hok.
Qed.

Lemma clear_ok sid st : store_ok st -> store_ok (clear sid st).
Proof.
intros Hok k items. unfold clear.
destruct (decide (sid = k)) as [<-|Hne].
- by rewrite lookup_delete_eq.
- rewrite lookup_delete_ne by done. apply Hok.
Qed.

Lemma chat_store_ok req w :
  store_ok (memory w) -> store_ok (memory (chat env req w).2).
Proof.
intros Hok. unfold chat.
destruct (session_id req) as [[|c s]|];
  destruct (system req) as [[|c' s']|];
  destruct (opt_truthy (GEMINI_API_KEY env));
  cbn [negb]; run_chat;
  try match goal with |- context [generate_content ?en ?n ?p] =>
        destruct (generate_content en n p) as [e'|r] end;
  cbn [fst snd memory];
  repeat (apply add_message_at_ok; [|reflexivity|reflexivity]);
  exact Hok.
Qed.

End Chat.

Lemma chat_without_key_witness :
  exists resp w',
    chat (sample_env None) sample_request sample_world = (Returned resp, w') /\
    response resp = missing_key_text /\
    llm_calls w' = [].
Proof.
assert (Hkey : opt_truthy (GEMINI_API_KEY (sample_env None)) = false)
  by reflexivity.
destruct (chat_without_key (sample_env None) sample_request sample_world Hkey)
  as (resp & w' & Hrun & Hresp & _ & _ & _ & Hlog & _).
exists resp, w'. auto.
Defined.

Lemma chat_model_failure_witness :
  exists resp,
    (chat (sample_env (Some (py "key"))) sample_request sample_world).1
      = Returned resp /\
    response resp = py "Error communicating with Gemini API: quota exceeded".
Proof.
set (env := sample_env (Some (py "key"))).
assert (Hkey : opt_truthy (GEMINI_API_KEY env) = true) by reflexivity.
assert (Hgen : forall p,
  generate_content env (length (llm_calls sample_world)) p
  = inl (py "quota exceeded")) by reflexivity.
destruct (last (llm_calls (chat env sample_request sample_world).2))
  as [prompt|] eqn:Hlast; [|vm_compute in Hlast; discriminate].
destruct (chat_model_failure env sample_request sample_world
            (py "quota exceeded") prompt Hkey Hlast (Hgen prompt))
  as (resp & Hrun & Hresp & _).
exists resp. auto.
Defined.

(** ** The memory endpoints and the store, further *)

Section Endpoints.
Implicit Types (st : Store) (sid : pystr) (w : World).

Lemma map_MemoryItem (items : list Turn) : map MemoryItem items = items.
Proof.
induction items as [|[r t ts] items IH]; [done|]. simpl. by rewrite IH.
Qed.

Lemma get_memory_run sid w :
  get_memory sid w = (Returned (get_all (memory w) sid), w).
Proof.
unfold get_memory, bind, read_memory, ret. by rewrite map_MemoryItem.
Qed.

Lemma clear_memory_run sid w :
  clear_memory sid w =
  (Returned (true, py "Cleared memory for session " ++ sid),
   {| memory := clear sid (memory w); ticks := ticks w;
      llm_calls := llm_calls w |}).
Proof. reflexivity. Qed.

(** X1: after [clear_memory] of a session, [get_memory] of it returns the
    empty list, [get_recent] returns nothing for any limit, the id is no
    longer among the ids of [list_sessions], and a message added next is
    the only turn of the session; the history of every other session is
    as before, and clearing a session the store does not hold changes
    nothing.  The reply is [ok] in every case. *)
Theorem clear_memory_forgets sid w :
  let w' := (clear_memory sid w).2 in
  (clear_memory sid w).1 =
    Returned (true, py "Cleared memory for session " ++ sid) /\
  (get_memory sid w').1 = Returned [] /\
  (forall k, get_recent (memory w') sid k = []) /\
  (forall ids, (list_sessions w').1 = Returned ids -> ~ In sid ids) /\
  (forall ts r t,
     get_all (add_message_at ts sid r t (memory w')) sid = [turn_at ts r t]) /\
  (forall sid', sid <> sid' ->
     (get_memory sid' w').1 = (get_memory sid' w).1) /\
  (memory w !! sid = None -> memory w' = memory w).
Proof.
intros w'. unfold w'. rewrite clear_memory_run. cbn [fst snd].
split; [reflexivity|].
assert (Hgone : clear sid (memory w) !! sid = None)
  by apply lookup_delete_eq.
repeat split.
- rewrite get_memory_run. cbn [fst memory]. unfold get_all. by rewrite Hgone.
- intros k. by apply get_recent_unknown.
- intros ids [= <-] Hin. cbn [memory] in Hin.
  apply list_elem_of_In in Hin.
  assert (Hs : sid ∈ session_set (clear sid (memory w))).
  { unfold session_set. by apply elem_of_list_to_set. }
  rewrite session_set_dom in Hs. apply elem_of_dom in Hs as [x Hx].
  by rewrite Hgone in Hx.
- intros ts r t. rewrite get_all_add_same. cbn [memory].
  unfold get_all. by rewrite Hgone.
- intros sid' Hne. rewrite !get_memory_run. cbn [fst memory].
  unfold get_all, clear. by rewrite lookup_delete_ne.
- intros Hnone. cbn [memory]. unfold clear. by apply delete_id.
Qed.

(** X2: whatever the limit, negative ones included, [get_recent] returns
    the stored turns from some position to the end: nothing is reordered,
    repeated or made up.  A positive limit bounds the length of the
    result, and for a limit that is not negative the latest turn of a
    session that has one is always the last of the result. *)
Theorem get_recent_is_suffix st sid (k : Z) :
  (exists older, get_all st sid = older ++ get_recent st sid k) /\
  (0 < k -> Z.of_nat (length (get_recent st sid k)) <= k) /\
  (0 <= k -> get_all st sid <> [] -> 
     last (get_recent st sid k) = last (get_all st sid)).
Proof.
assert (Hdrop : exists n, get_recent st sid k = drop n (get_all st sid) /\
   (0 <= k -> get_all st sid <> [] -> (n < length (get_all st sid))%nat)).
{ destruct (Z.lt_trichotomy k 0) as [Hk|[->|Hk]].
  - exists (Z.to_nat (- k)). split; [by apply get_recent_neg|lia].
  - exists 0%nat. split; [by rewrite get_recent_zero|].
    intros _ Hne. destruct (get_all st sid); [done|simpl; lia].
  - eexists. split; [by apply get_recent_pos|].
    intros _ Hne. destruct (get_all st sid); [done|simpl length; lia]. }
destruct Hdrop as (n & E & Hn). repeat split.
- exists (take n (get_all st sid)). by rewrite E, take_drop.
- intros Hk. rewrite get_recent_pos by done. unfold last_n.
  rewrite length_drop. lia.
- intros Hk Hne. rewrite E. specialize (Hn Hk Hne).
  rewrite !last_lookup, lookup_drop, length_drop. f_equal. lia.
Qed.

End Endpoints.

(** ** The visual formatter, further *)

Section FormatterMore.
Local Open Scope N_scope.
Implicit Types (text : option pystr) (s p m : pystr) (c : N).

(** *** Where the characters of a result come from *)

Lemma in_replace_from old new s : forall k c,
  In c (replace_from old new k s) -> In c s \/ In c new.
Proof.
induction s as [|x s IH]; intros k c; [done|]. cbn [replace_from].
destruct k as [|k].
- destruct (starts_with old (x :: s)).
  + intros [H|H]%in_app_or; [by right|].
    apply IH in H as [H|H]; [left; by right|by right].
  + intros [->|H]; [left; by left|].
    apply IH in H as [H|H]; [left; by right|by right].
- intros H. apply IH in H as [H|H]; [left; by right|by right].
Qed.

Lemma in_replace old new s c :
  old <> [] -> In c (replace old new s) -> In c s \/ In c new.
Proof.
intros Hold. destruct old as [|p old]; [done|]. apply in_replace_from.
Qed.

Lemma in_split_from sep s : forall k p c,
  In p (split_from sep k s) -> In c p -> In c s.
Proof.
induction s as [|x s IH]; intros k p c.
- simpl. by intros [<-|[]].
- cbn [split_from]. destruct k as [|k].
  + destruct (starts_with sep (x :: s)).
    * intros [<-|H]; [done|]. intros Hc. right. by eapply IH.
    * destruct (split_from sep 0 s) as [|q qs] eqn:E.
      -- intros [<-|[]] [->|[]]. by left.
      -- intros [<-|H] Hc.
         ++ destruct Hc as [->|Hc]; [by left|]. right.
            apply (IH 0%nat q); [|done]. rewrite E. by left.
         ++ right. apply (IH 0%nat p); [|done]. rewrite E. by right.
  + intros H Hc. right. by eapply IH.
Qed.

Lemma in_lstrip s c : In c (lstrip s) -> In c s.
Proof.
induction s as [|x s IH]; [done|]. simpl.
destruct (isspace x); [|done]. intros H. right. by apply IH.
Qed.

Lemma in_strip s c : In c (strip s) -> In c s.
Proof.
unfold strip, rstrip. intros H.
apply in_rev, in_lstrip in H. apply in_rev in H. by apply in_lstrip.
Qed.

Lemma in_join sep ps c :
  In c (join sep ps) -> In c sep \/ exists p, In p ps /\ In c p.
Proof.
induction ps as [|p ps IH]; [done|].
destruct ps as [|q ps].
- intros H. right. exists p. split; [by left|done].
- change (join sep (p :: q :: ps)) with (p ++ sep ++ join sep (q :: ps)).
  intros [H|[H|H]%in_app_or]%in_app_or.
  + right. exists p. split; [by left|done].
  + by left.
  + apply IH in H as [H|(p' & Hp' & H)]; [by left|].
    right. exists p'. split; [by right|done].
Qed.

Lemma in_stripped_nonempty pieces p :
  In p (stripped_nonempty pieces) -> exists q, In q pieces /\ p = strip q.
Proof.
unfold stripped_nonempty. intros (q & <- & Hq)%in_map_iff.
apply filter_In in Hq as [Hq _]. eauto.
Qed.

(** Every character of a paragraph is a character of the normalised
    text. *)
Lemma in_paragraphs_of t p c :
  In p (paragraphs_of t) -> In c p -> In c t.
Proof.
unfold paragraphs_of.
destruct (py_in _ _); intros H Hc;
  apply in_stripped_nonempty in H as (q & Hq & ->);
  apply in_strip in Hc; by eapply in_split_from.
Qed.

Lemma normalize_newlines_no_CR s : ~ In CR (normalize_newlines s).
Proof.
unfold normalize_newlines. rewrite replace_char.
intros (x & _ & Hx)%in_flat_map.
destruct (x =? CR) eqn:E.
- by destruct Hx as [|[]].
- destruct Hx as [Hx|[]]. rewrite Hx in E. discriminate E.
Qed.

Lemma in_escape_br_char x c :
  In c (escape_br_char x) ->
  c = x \/ In c (py "<br>&amp;&lt;&gt;&quot;&#x27;").
Proof.
unfold escape_br_char, escape_char.
repeat match goal with
| |- context [if ?b then _ else _] => destruct b
end; intros H; try (right; vm_compute in H |- *; tauto).
left. by destruct H as [->|[]].
Qed.

Lemma in_html_fragment p c :
  In c (html_fragment p) ->
  In c p \/ In c (py "</p><br>&amp;&lt;&gt;&quot;&#x27;").
Proof.
unfold html_fragment. rewrite escaped_body_chars.
intros [H|[H|H]%in_app_or]%in_app_or.
- right. vm_compute in H |- *. tauto.
- apply in_flat_map in H as (x & Hx & H).
  apply in_escape_br_char in H as [->|H]; [by left|].
  right. vm_compute in H |- *. tauto.
- right. vm_compute in H |- *. tauto.
Qed.

(** *** Blank text *)

Lemma lstrip_blank s : is_blank s -> lstrip s = [].
Proof.
induction s as [|x s IH]; intros Hb; [done|]. simpl.
assert (Hx : isspace x = true) by (apply (Hb x); by left).
rewrite Hx. apply IH. intros c Hc. apply Hb. by right.
Qed.

Lemma strip_blank s : is_blank s -> strip s = [].
Proof. intros Hb. unfold strip, rstrip. by rewrite (lstrip_blank s). Qed.

Lemma stripped_nonempty_blank pieces :
  (forall q, In q pieces -> is_blank q) -> stripped_nonempty pieces = [].
Proof.
unfold stripped_nonempty. induction pieces as [|q pieces IH]; intros Hb; [done|].
assert (Hq : strip q = []) by (apply strip_blank, (Hb q); by left).
simpl. rewrite Hq. simpl. apply IH. intros q' Hq'. apply Hb. by right.
Qed.

Lemma normalize_newlines_blank s :
  is_blank s -> is_blank (normalize_newlines s).
Proof.
intros Hb c Hc. unfold normalize_newlines in Hc.
apply in_replace in Hc as [Hc|[<-|[]]]; [|done|done].
apply in_replace in Hc as [Hc|[<-|[]]]; [|done|done].
by apply Hb.
Qed.

Lemma paragraphs_blank text :
  is_blank (default [] text) -> paragraphs text = [].
Proof.
intros Hb%normalize_newlines_blank. unfold paragraphs, paragraphs_of.
destruct (py_in _ _); apply stripped_nonempty_blank;
  intros q Hq c Hc; apply Hb; by eapply in_split_from.
Qed.

(** X3: a text made of whitespace only, the empty text and a missing
    text among them, gives the placeholder paragraph, an empty markdown and no
    segment; a text with any other character gives at least one
    segment. *)
Theorem blank_text_placeholder text :
  (is_blank (default [] text) ->
   build_visual_payload text =
   {| html := py "<p>(empty)</p>"; markdown := []; segments := [] |}) /\
  (forall c, In c (default [] text) -> isspace c = false ->
   segments (build_visual_payload text) <> []).
Proof.
rewrite build_visual_payload_eq. split.
- intros Hb. by rewrite paragraphs_blank.
- intros c Hc Hns. cbn [segments].
  destruct (paragraphs_keep [c] text) as (p & Hp & _).
  + done.
  + by intros c' [<-|[]].
  + apply list_elem_of_In, list_elem_of_split in Hc as (a & b & ->).
    by exists a, b.
  + by destruct (paragraphs text).
Qed.

(** *** Line endings and blank lines in the result *)

Lemma has_substring_trans m p q :
  has_substring m p -> has_substring p q -> has_substring m q.
Proof.
intros (a & b & ->) (a' & b' & ->).
exists (a' ++ a), (b ++ b'). by rewrite <- !app_assoc.
Qed.

Lemma strip_has_substring s : has_substring (strip s) s.
Proof.
destruct (lstrip_suffix s) as [ws E]. destruct (strip_prefix s) as [ws' E'].
exists ws, ws'. by rewrite <- E'.
Qed.

Lemma first_piece_prefix sep s q qs :
  sep <> [] -> split_from sep 0 s = q :: qs -> exists r, s = q ++ r.
Proof.
intros Hsep E. pose proof (join_split_from sep s 0 Hsep) as J.
rewrite E in J. change (drop 0 s) with s in J. rewrite <- J.
destruct qs as [|q' qs]; [exists []; by rewrite app_nil_r|].
by exists (sep ++ join sep (q' :: qs)).
Qed.

(** No piece of a split contains the separator. *)
Lemma split_from_no_sep sep s :
  sep <> [] ->
  forall k p, In p (split_from sep k s) -> ~ has_substring sep p.
Proof.
intros Hsep. induction s as [|x s IH]; intros k p.
- simpl. intros [<-|[]] H. by apply has_substring_nil in H.
- cbn [split_from]. destruct k as [|k]; [|apply IH].
  destruct (starts_with sep (x :: s)) eqn:Es.
  + intros [<-|H]; [|by eapply IH].
    intros H. by apply has_substring_nil in H.
  + destruct (split_from sep 0 s) as [|q qs] eqn:E.
    { by destruct (split_from_nonempty sep s 0). }
    intros [<-|H].
    * intros ([|y a] & b & Eq).
      -- destruct (first_piece_prefix sep s q qs Hsep E) as [r ->].
         assert (starts_with sep (x :: q ++ r) = true); [|congruence].
         apply starts_with_spec. exists (b ++ r).
         change (x :: q ++ r) with ((x :: q) ++ r).
         rewrite Eq. simpl. by rewrite <- app_assoc.
      -- injection Eq as -> ->. apply (IH 0%nat (a ++ sep ++ b)).
         ++ rewrite E. by left.
         ++ by exists a, b.
    * apply (IH 0%nat p). rewrite E. by right.
Qed.

Lemma paragraphs_no_blank_line text p :
  In p (paragraphs text) -> py_in [LF; LF] p = false.
Proof.
unfold paragraphs, paragraphs_of.
set (t := normalize_newlines (default [] text)).
destruct (py_in [LF; LF] t) eqn:Et; intros (q & Hq & ->)%in_stripped_nonempty;
  apply not_true_is_false; intros H%py_in_spec;
  pose proof (has_substring_trans _ _ _ H (strip_has_substring q)) as Hsub.
- by apply (split_from_no_sep [LF; LF] t) in Hq.
- apply (split_from_no_sep [LF] t) in Hq; [|done]. apply Hq.
  destruct Hsub as (a & b & ->). by exists a, (LF :: b).
Qed.

Lemma paragraphs_no_CR text p : In p (paragraphs text) -> ~ In CR p.
Proof.
intros Hp Hc. apply (normalize_newlines_no_CR (default [] text)).
by eapply in_paragraphs_of.
Qed.

(** X4: whatever the line endings of the text, no carriage return is left in
    the HTML, the markdown or a segment, and no segment spans a blank
    line. *)
Theorem output_line_endings text :
  let v := build_visual_payload text in
  ~ In CR (html v) /\ ~ In CR (markdown v) /\
  forall sg, In sg (segments v) ->
    ~ In CR (seg_text sg) /\ py_in [LF; LF] (seg_text sg) = false.
Proof.
intros v. unfold v. rewrite build_visual_payload_eq.
cbn [html markdown segments]. repeat split.
- destruct (paragraphs text) as [|p0 ps] eqn:E.
  { vm_compute. intuition discriminate. }
  rewrite <- E. intros [[H|[]]|(f & Hf & H)]%in_join; [done|].
  apply in_map_iff in Hf as (p & <- & Hp).
  apply in_html_fragment in H as [H|H].
  + by apply (paragraphs_no_CR text p).
  + vm_compute in H. intuition discriminate.
- intros [[H|[H|[]]]|(p & Hp & H)]%in_join; [done|done|].
  by apply (paragraphs_no_CR text p).
- apply in_map_iff in H as (p & <- & Hp). by apply (paragraphs_no_CR text p).
- apply in_map_iff in H as (p & <- & Hp).
  by apply (paragraphs_no_blank_line text).
Qed.

(** *** Markup in the HTML output *)

Lemma occurrences_fragment_other d pat p z :
  d <> 112 -> d <> 98 -> d <> 47 ->
  occurrences (60 :: d :: pat) (html_fragment p ++ z) =
  occurrences (60 :: d :: pat) z.
Proof.
intros Hp Hb Hs. unfold html_fragment. rewrite <- !app_assoc.
change (py "<p>") with [60; 112; 62]. change (py "</p>") with [60; 47; 112; 62].
cbn [app]. rewrite occurrences_skip2 by done.
rewrite !occurrences_skip by done.
rewrite occurrences_escaped_body by done.
rewrite occurrences_skip2 by done.
by rewrite !occurrences_skip by done.
Qed.

(** X5: the only markup in the HTML output is what the formatter writes
    itself: a "<" is always the start of "<p", "<b" (of the line break)
    or "</", and the output holds no quote character of either kind. *)
Theorem html_only_own_markup text d rest :
  d <> 112 -> d <> 98 -> d <> 47 ->
  let v := build_visual_payload text in
  py_in (60 :: d :: rest) (html v) = false /\
  ~ In QUOT (html v) /\ ~ In APOS (html v).
Proof.
intros Hp Hb Hs v. unfold v. rewrite build_visual_payload_eq. cbn [html].
destruct (paragraphs text) as [|p0 ps] eqn:E.
{ split; [|vm_compute; intuition discriminate].
  rewrite py_in_occurrences. change (py "<p>(empty)</p>")
    with ([60; 112; 62; 40; 101; 109; 112; 116; 121; 41] ++ [60; 47; 112; 62]).
  cbn [app]. rewrite occurrences_skip2 by done.
  rewrite !occurrences_skip by done.
  rewrite occurrences_skip2 by done.
  by rewrite !occurrences_skip by done. }
rewrite <- E. clear E. split.
- rewrite py_in_occurrences.
  rewrite (occurrences_join_fragments 0); [done|].
  intros q z. by apply occurrences_fragment_other.
- assert (Hq : forall c, In c (py "</p><br>&amp;&lt;&gt;&quot;&#x27;") ->
                         c <> QUOT /\ c <> APOS).
  { intros c Hc. vm_compute in Hc.
    repeat destruct Hc as [<-|Hc]; try done. }
  assert (Hfrag : forall c f, In f (map html_fragment (paragraphs text)) ->
            In c f -> (c = QUOT \/ c = APOS) -> False).
  { intros c f (p & <- & _)%in_map_iff Hc Hqa.
    unfold html_fragment in Hc. rewrite escaped_body_chars in Hc.
    apply in_app_or in Hc as [Hc|Hc].
    { vm_compute in Hc. destruct Hqa as [-> | ->]; intuition discriminate. }
    apply in_app_or in Hc as [Hc|Hc].
    2:{ vm_compute in Hc. destruct Hqa as [-> | ->]; intuition discriminate. }
    apply in_flat_map in Hc as (x & _ & Hc).
    unfold escape_br_char, escape_char in Hc.
    destruct (x =? LF) eqn:E0;
      [vm_compute in Hc; destruct Hqa as [-> | ->]; intuition discriminate|].
    destruct (x =? 38) eqn:E1;
      [vm_compute in Hc; destruct Hqa as [-> | ->]; intuition discriminate|].
    destruct (x =? 60) eqn:E2;
      [vm_compute in Hc; destruct Hqa as [-> | ->]; intuition discriminate|].
    destruct (x =? 62) eqn:E3;
      [vm_compute in Hc; destruct Hqa as [-> | ->]; intuition discriminate|].
    destruct (x =? QUOT) eqn:E4;
      [vm_compute in Hc; destruct Hqa as [-> | ->]; intuition discriminate|].
    destruct (x =? APOS) eqn:E5;
      [vm_compute in Hc; destruct Hqa as [-> | ->]; intuition discriminate|].
    destruct Hc as [Hc|[]]. rewrite Hc in E4, E5.
    destruct Hqa as [-> | ->]; discriminate. }
  split; intros [[H|[]]|(f & Hf & H)]%in_join; try done;
    eapply Hfrag; eauto.
Qed.

(** *** The markdown output keeps the text as it is *)

(** X6: a run of characters without whitespace that occurs in the text
    occurs unchanged, markup included, in the markdown output and in the
    text of a segment. *)
Theorem markdown_keeps_raw_text text m :
  m <> [] -> (forall c, In c m -> isspace c = false) ->
  has_substring m (default [] text) ->
  let v := build_visual_payload text in
  has_substring m (markdown v) /\
  exists sg, In sg (segments v) /\ has_substring m (seg_text sg).
Proof.
intros Hm Hns Hsub v. unfold v. rewrite build_visual_payload_eq.
cbn [markdown segments].
destruct (paragraphs_keep m text Hm Hns Hsub) as (p & Hp & Hmp). split.
- by apply (join_has_substring m _ _ p).
- exists (paragraph_segment p). split; [by apply in_map|done].
Qed.

(** *** Formatting the markdown output again *)

Lemma split_from_whole sep u :
  py_in sep u = false -> split_from sep 0 u = [u].
Proof.
induction u as [|x u IH]; [done|]. cbn [py_in split_from].
intros [Hs Hu]%orb_false_iff. rewrite Hs, IH by done. reflexivity.
Qed.

Lemma split_blank_line_step u rest :
  py_in [LF; LF] u = false -> last u <> Some LF ->
  split_from [LF; LF] 0 (u ++ LF :: LF :: rest) =
  u :: split_from [LF; LF] 0 rest.
Proof.
induction u as [|x u IH]; intros Hu Hlast; [reflexivity|].
cbn [py_in] in Hu. apply orb_false_iff in Hu as [Hs Hu].
cbn [app split_from].
assert (Hns : starts_with [LF; LF] (x :: u ++ LF :: LF :: rest) = false).
{ cbn [starts_with] in Hs |- *.
  destruct (N.eqb_spec LF x) as [<-|Hx]; [|done]. cbn [andb] in Hs |- *.
  destruct u as [|y u]; [done|]. exact Hs. }
rewrite Hns, IH; [done|done|].
destruct u as [|y u]; [done|]. by rewrite last_cons_cons in Hlast.
Qed.

Lemma split_join_blank_line ps :
  ps <> [] ->
  (forall p, In p ps -> py_in [LF; LF] p = false /\ last p <> Some LF) ->
  split [LF; LF] (join [LF; LF] ps) = ps.
Proof.
unfold split. induction ps as [|p ps IH]; intros Hne Hps; [done|].
destruct (Hps p) as [Hp Hl]; [by left|].
destruct ps as [|q ps].
- by apply split_from_whole.
- change (join [LF; LF] (p :: q :: ps))
    with (p ++ LF :: LF :: join [LF; LF] (q :: ps)).
  rewrite split_blank_line_step, IH; try done.
  intros p' Hp'. apply Hps. by right.
Qed.

Lemma lstrip_head_id s :
  (forall c, head s = Some c -> isspace c = false) -> lstrip s = s.
Proof.
destruct s as [|x s]; [done|]. intros H. simpl. by rewrite (H x).
Qed.

Lemma strip_trimmed p : is_trimmed p -> strip p = p.
Proof.
intros (_ & Hh & Hl). unfold strip, rstrip.
rewrite (lstrip_head_id p Hh), lstrip_head_id, rev_involutive; [done|].
intros c Hc. apply Hl. rewrite <- Hc, <- last_rev_head.
by rewrite rev_involutive.
Qed.

Lemma stripped_nonempty_trimmed ps :
  (forall p, In p ps -> is_trimmed p) -> stripped_nonempty ps = ps.
Proof.
unfold stripped_nonempty. induction ps as [|p ps IH]; intros H; [done|].
assert (Hp : is_trimmed p) by (apply H; by left).
cbn [List.filter]. rewrite (strip_trimmed p Hp).
assert (Ht : truthy p = true) by (destruct p; [by destruct Hp|done]).
rewrite Ht. cbn [map]. rewrite (strip_trimmed p Hp). f_equal.
apply IH. intros q Hq. apply H. by right.
Qed.

Lemma normalize_newlines_id s : ~ In CR s -> normalize_newlines s = s.
Proof.
intros Hs. unfold normalize_newlines, replace.
assert (H : forall old new, replace_from (CR :: old) new 0 s = s).
{ intros old new. rewrite <- (app_nil_r s) at 1.
  rewrite replace_from_through; [by rewrite app_nil_r|].
  intros c Hc ->. done. }
by rewrite !H.
Qed.

(** X7: formatting the markdown output again gives the same result, except
    when the text has a single paragraph with a line break inside. *)
Theorem markdown_reformat text :
  (forall p, paragraphs text = [p] -> ~ In LF p) ->
  build_visual_payload (Some (markdown (build_visual_payload text))) =
  build_visual_payload text.
Proof.
intros Hone.
assert (E : paragraphs (Some (markdown (build_visual_payload text)))
            = paragraphs text).
{ rewrite build_visual_payload_eq. cbn [markdown].
  remember (paragraphs text) as ps eqn:Eps.
  assert (Htrim : forall p, In p ps -> is_trimmed p)
    by (intros p; rewrite Eps; apply paragraphs_trimmed).
  assert (Hbl : forall p, In p ps -> py_in [LF; LF] p = false)
    by (intros p; rewrite Eps; apply paragraphs_no_blank_line).
  assert (Hcr : ~ In CR (join [LF; LF] ps)).
  { intros [[H|[H|[]]]|(p & Hp & H)]%in_join; [done|done|].
    rewrite Eps in Hp. by apply (paragraphs_no_CR text p). }
  unfold paragraphs.
  change (default [] (Some (join [LF; LF] ps))) with (join [LF; LF] ps).
  rewrite normalize_newlines_id by done.
  unfold paragraphs_of.
  destruct ps as [|p [|q ps]].
  - reflexivity.
  - cbn [join]. rewrite Hbl by (by left). unfold split.
    rewrite split_from_whole.
    + apply stripped_nonempty_trimmed. intros p' [<-|[]]. apply Htrim. by left.
    + apply not_true_is_false. intros H%py_in_spec.
      destruct H as (a & b & Hab). apply (Hone p eq_refl).
      rewrite Hab. apply in_or_app. right. by left.
  - assert (Hin : py_in [LF; LF] (join [LF; LF] (p :: q :: ps)) = true).
    { apply py_in_spec. by exists p, (join [LF; LF] (q :: ps)). }
    rewrite Hin, split_join_blank_line; [|done|].
    + by apply stripped_nonempty_trimmed.
    + intros p' Hp'. split; [by apply Hbl|].
      destruct (Htrim p' Hp') as (_ & _ & Hl). intros Hlast.
      by specialize (Hl LF Hlast). }
rewrite (build_visual_payload_eq
           (Some (markdown (build_visual_payload text)))), E.
symmetry. apply build_visual_payload_eq.
Qed.

End FormatterMore.

(** ** The prompt builder, further *)

Section PromptMore.
Implicit Types (st : Store) (sid msg : pystr) (o : option pystr).


Lemma join_snoc_two sep (parts : list pystr) a b :
  join sep (parts ++ [a; b]) =
  match parts with
  | [] => []
  | _ :: _ => join sep parts ++ sep
  end ++ a ++ sep ++ b.
Proof.
induction parts as [|p parts IH]; [done|].
destruct parts as [|q parts].
- simpl. by rewrite <- !app_assoc.
- change (join sep ((p :: q :: parts) ++ [a; b]))
    with (p ++ sep ++ join sep ((q :: parts) ++ [a; b])).
  rewrite IH.
  change (join sep (p :: q :: parts))
    with (p ++ sep ++ join sep (q :: parts)).
  by rewrite <- !app_assoc.
Qed.


Lemma history_block_lines st sid (ms : Z) :
  history_block st sid ms =
  match get_recent st sid ms with
  | [] => []
  | _ :: _ =>
      history_header ::
      map history_line
        (List.filter (fun t => negb (is_system t)) (get_recent st sid ms)) ++
      [[]]
  end.
Proof.
unfold history_block.
destruct (get_recent st sid ms) as [|t l]; [done|].
by rewrite fold_history_step.
Qed.

Lemma build_prompt_parts st sid msg (ms : Z) :
  truthy sid = true ->
  build_prompt_with_context st (Some sid) msg ms =
  join [LF]
    (system_block st sid ++ history_block st sid ms ++
     [py "User: " ++ strip msg; py "Assistant:"]).
Proof.
intros Hsid. unfold build_prompt_with_context. rewrite Hsid.
cbn [app]. by rewrite <- !app_assoc.
Qed.


(** X9: without a session id, with the empty string for one, or with the id
    of a session that has no turn, the prompt is the two closing lines
    only. *)
Theorem prompt_without_history st o msg (ms : Z) :
  match o with
  | Some sid => truthy sid = false \/ get_all st sid = []
  | None => True
  end ->
  build_prompt_with_context st o msg ms =
  py "User: " ++ strip msg ++ [LF] ++ py "Assistant:".
Proof.
intros H. unfold build_prompt_with_context.
destruct o as [sid|]; [|cbn [app join]; by rewrite <- app_assoc].
destruct (truthy sid) eqn:E; [|cbn [app join]; by rewrite <- app_assoc].
destruct H as [H|H]; [done|].
unfold system_block, history_block, get_recent. rewrite H.
unfold get_all in H. rewrite H. cbn [List.filter length].
assert (Hr : (if negb (ms =? 0) && (Z.of_nat 0 >? ms)
              then slice_from (- ms) (@nil Turn) else []) = []).
{ destruct (negb (ms =? 0) && _); [|done]. apply drop_nil. }
rewrite Hr. cbn [app join]. by rewrite <- app_assoc.
Qed.

(** X10: whatever the store and the arguments, the prompt ends with the line
    of the new message and the line "Assistant:", and what comes before
    is empty or ends with a newline. *)
Theorem prompt_closing_lines st o msg (ms : Z) :
  exists before,
    build_prompt_with_context st o msg ms =
    before ++ py "User: " ++ strip msg ++ [LF] ++ py "Assistant:" /\
    (before = [] \/ last before = Some LF).
Proof.
assert (Hgen : forall parts : list pystr, exists before,
  join [LF] ((parts ++ [py "User: " ++ strip msg]) ++ [py "Assistant:"]) =
  before ++ py "User: " ++ strip msg ++ [LF] ++ py "Assistant:" /\
  (before = [] \/ last before = Some LF)).
{ intros parts. rewrite <- app_assoc. cbn [app]. rewrite join_snoc_two.
  destruct parts as [|p parts'].
  - exists []. split; [by rewrite <- !app_assoc|by left].
  - exists (join [LF] (p :: parts') ++ [LF]). split.
    + by rewrite <- !app_assoc.
    + right. apply last_snoc. }
unfold build_prompt_with_context. apply Hgen.
Qed.

(** X11: a memory size at least as large as the history gives the same prompt
    as any other such size, and as size 0. *)
Theorem memory_size_beyond_history st o msg (ms ms' : Z) :
  (forall sid, o = Some sid ->
     Z.of_nat (length (get_all st sid)) <= ms /\
     (ms' = 0 \/ Z.of_nat (length (get_all st sid)) <= ms')) ->
  build_prompt_with_context st o msg ms =
  build_prompt_with_context st o msg ms'.
Proof.
intros H. unfold build_prompt_with_context, history_block.
destruct o as [sid|]; [|done]. destruct (H sid eq_refl) as [H1 H2].
rewrite (get_recent_short st sid ms H1).
destruct H2 as [->|H2].
- by rewrite get_recent_zero.
- by rewrite (get_recent_short st sid ms' H2).
Qed.

End PromptMore.

(** ** The handler, further *)

Section ChatMore.
Variable env : Env.
Implicit Types (req : ChatRequest) (w : World).

Local Arguments py _%_string : simpl never.
Local Arguments build_visual_payload : simpl never.
Local Arguments build_prompt_with_context : simpl never.
Local Arguments add_message_at : simpl never.
Local Arguments str_of_int : simpl never.
Local Arguments extract_text : simpl never.

Local Ltac chat_cases req :=
  unfold chat;
  destruct (session_id req) as [[|? ?]|];
  destruct (system req) as [[|? ?]|];
  destruct (opt_truthy (GEMINI_API_KEY env)) eqn:?Hkey;
  cbn [negb];
  cbv beta iota zeta delta
    [bind ret add_message now try_except read_memory call_model];
  cbn [fst snd memory ticks llm_calls];
  try match goal with |- context [generate_content ?en ?n ?p] =>
        destruct (generate_content en n p) as [?e|?r] eqn:?Hgen end;
  cbn [fst snd memory ticks llm_calls].

(** X12: whatever the request, the state and the behaviour of the model,
    [chat] returns a response and raises nothing; it sends exactly one
    prompt to the model when a key is configured and none otherwise. *)
Theorem chat_always_returns req w :
  exists resp,
    (chat env req w).1 = Returned resp /\
    model resp = model_name /\
    if opt_truthy (GEMINI_API_KEY env)
    then exists prompt, llm_calls (chat env req w).2 = llm_calls w ++ [prompt]
    else llm_calls (chat env req w).2 = llm_calls w.
Proof.
chat_cases req; eexists; (split; [reflexivity|]); split; eauto.
Qed.


(** X14: [chat] only appends, and only to the session of the response:
    that session gains the system turn if the request gives one and,
    when a key is configured, the user turn followed by an assistant turn
    whose text is the response text; every other session is as before. *)
Theorem chat_only_appends req w :
  exists resp,
    (chat env req w).1 = Returned resp /\
    map said (get_all (memory (chat env req w).2) (r_session_id resp)) =
      map said (get_all (memory w) (r_session_id resp)) ++
      system_said req ++
      (if opt_truthy (GEMINI_API_KEY env)
       then [(py "user", message req); (py "assistant", response resp)]
       else []) /\
    forall sid, sid <> r_session_id resp ->
      get_all (memory (chat env req w).2) sid = get_all (memory w) sid.
Proof.
unfold system_said.
chat_cases req; eexists; (split; [reflexivity|]);
  cbn [r_session_id response]; split.
all: try (intros sid Hne; rewrite ?get_all_add_other by done; reflexivity).
all: rewrite ?get_all_add_same, ?map_app; cbn [map app];
  rewrite <- ?app_assoc, ?app_nil_r; reflexivity.
Qed.




Lemma last_n_snoc {A} (n : nat) (l : list A) x :
  (0 < n)%nat -> last_n n (l ++ [x]) = last_n (n - 1) l ++ [x].
Proof.
intros Hn. unfold last_n. rewrite length_app. simpl length.
rewrite drop_app_le by lia. f_equal. f_equal. lia.
Qed.

Lemma prompt_after_user_turn st ts sid msg (ms : Z) :
  truthy sid = true -> 0 < ms ->
  exists before,
    build_prompt_with_context
      (add_message_at ts sid (py "user") msg st) (Some sid) msg ms =
    before ++ (py "User: " ++ strip msg) ++ [LF; LF] ++
    (py "User: " ++ strip msg) ++ [LF] ++ py "Assistant:".
Proof.
intros Hsid Hms. rewrite build_prompt_parts by done.
rewrite history_block_lines.
rewrite get_recent_pos, get_all_add_same by done.
rewrite last_n_snoc by (rewrite length_app; simpl; lia).
set (old := last_n _ _). set (sys := system_block _ _).
destruct (old ++ [turn_at ts (py "user") msg]) as [|t0 l0] eqn:E.
{ by destruct old. }
rewrite <- E. clear E t0 l0.
rewrite List.filter_app, map_app. cbn [List.filter map].
change (negb (is_system (turn_at ts (py "user") msg))) with true.
cbn [map].
change (history_line (turn_at ts (py "user") msg))
  with (py "User: " ++ strip msg).
set (U := py "User: " ++ strip msg).
set (lines := map history_line _).
replace (sys ++ (history_header :: (lines ++ [U]) ++ [[]]) ++
         [U; py "Assistant:"])
  with (((sys ++ history_header :: lines) ++ [U; []]) ++ [U; py "Assistant:"])
  by (rewrite <- !app_assoc; cbn [app]; by rewrite <- !app_assoc).
rewrite join_snoc_two.
destruct ((sys ++ history_header :: lines) ++ [U; []]) as [|p0 ps0] eqn:E.
{ by destruct sys. }
rewrite <- E, join_snoc_two. clear E.
destruct (sys ++ history_header :: lines) as [|p1 ps1] eqn:E1.
{ by destruct sys. }
exists (join [LF] (p1 :: ps1) ++ [LF]).
rewrite <- !app_assoc. reflexivity.
Qed.

(** X17: the prompt [chat] sends to the model holds the new message
    twice: the user turn is stored before the prompt is built, so the
    history section ends with its line, and the closing lines give it
    again. *)
Theorem chat_prompt_repeats_message req w :
  opt_truthy (GEMINI_API_KEY env) = true ->
  exists prompt before,
    llm_calls (chat env req w).2 = llm_calls w ++ [prompt] /\
    prompt =
      before ++ (py "User: " ++ strip (message req)) ++ [LF; LF] ++
      (py "User: " ++ strip (message req)) ++ [LF] ++ py "Assistant:".
Proof.
intros Hkey'.
assert (Hms : 0 < match memory_size req with
                  | Some n => if negb (n =? 0) && (n >? 0) then n else 6
                  | None => 6
                  end).
{ destruct (memory_size req) as [n|]; [|lia].
  destruct (Z.eqb_spec n 0); [simpl; lia|]. simpl.
  destruct (Z.gtb_spec n 0); lia. }
chat_cases req; try congruence.
all: match goal with |- context [build_prompt_with_context
         (add_message_at ?ts ?sid _ ?msg ?st) _ _ ?ms] =>
       destruct (prompt_after_user_turn st ts sid msg ms eq_refl Hms)
         as [before Hb] end.
all: eexists; exists before; split; [reflexivity|exact Hb].
Qed.


(** X18: whatever requests a server takes, in whatever order, the store
    keeps its shape: no session has the empty string for id, no stored
    session is without turns, and every role is system, user or
    assistant. *)
Theorem served_store_ok (rqs : list Request) w :
  store_ok (memory w) -> store_ok (memory (serve_all env rqs w)).
Proof.
unfold serve_all. revert w.
induction rqs as [|rq rqs IH]; intros w Hok; [done|].
cbn [fold_left]. apply IH. destruct rq as [req|sid|sid|]; cbn [serve].
- by apply chat_store_ok.
- done.
- by apply clear_ok.
- done.
Qed.

(** X19: a memory size that is missing, zero or negative makes [chat]
    behave as with the default of 6, and an empty string for the session
    id, the system instruction or the API key as if it were missing. *)
Theorem chat_defaults req w (o : option Z) :
  match o with Some n => n <= 0 | None => True end ->
  chat env (with_memory_size o req) w =
    chat env (with_memory_size (Some 6) req) w /\
  chat env (with_session_id (Some []) req) w =
    chat env (with_session_id None req) w /\
  chat env (with_system (Some []) req) w =
    chat env (with_system None req) w /\
  chat (with_key (Some []) env) req w = chat (with_key None env) req w.
Proof.
intros Ho. split; [|repeat split].
unfold chat, with_memory_size.
cbn [memory_size session_id system message].
destruct o as [n|]; [|reflexivity].
replace (negb (n =? 0) && (n >? 0)) with false; [reflexivity|].
destruct (Z.eqb_spec n 0); [done|]. destruct (Z.gtb_spec n 0); [lia|done].
Qed.

End ChatMore.

(** ** Timestamps across requests *)

Section Stamps.
Variable env : Env.
Hypothesis clock_monotone : monotone (clock env).
Implicit Types (st : Store) (w : World).

Local Arguments py _%_string : simpl never.
Local Arguments build_visual_payload : simpl never.
Local Arguments build_prompt_with_context : simpl never.
Local Arguments add_message_at : simpl never.
Local Arguments str_of_int : simpl never.
Local Arguments extract_text : simpl never.

Lemma stamped_tick st k : stamped env st k -> stamped env st (S k).
Proof.
intros H sid. destruct (H sid) as [Hs Hb].
split; [exact Hs|]. intros a Ha. etransitivity; [by apply Hb|].
apply clock_monotone. lia.
Qed.

Lemma stamped_add st k sid r t :
  stamped env st k ->
  stamped env (add_message_at (clock env k) sid r t st) (S k).
Proof.
intros H sid'.
destruct (decide (sid = sid')) as [<-|Hne].
- destruct (H sid) as [Hs Hb]. cbn zeta in *.
  rewrite get_all_add_same, map_app. cbn [map timestamp turn_at].
  set (old := map timestamp (get_all st sid)) in *. split.
  + intros i j a b Hij Hi Hj.
    destruct (decide (j < length old)%nat) as [Hlt|Hge].
    * rewrite lookup_app_l in Hi, Hj by lia. by apply (Hs i j).
    * rewrite lookup_app_r in Hj by lia.
      destruct (j - length old)%nat; [|done]. injection Hj as <-.
      destruct (decide (i < length old)%nat) as [Hlt|Hge'].
      -- rewrite lookup_app_l in Hi by lia. apply Hb.
         apply list_elem_of_In. by eapply list_elem_of_lookup_2.
      -- rewrite lookup_app_r in Hi by lia.
         destruct (i - length old)%nat; [|done]. injection Hi as <-. lia.
  + intros a [Ha|[<-|[]]]%in_app_or.
    * etransitivity; [by apply Hb|]. apply clock_monotone. lia.
    * apply clock_monotone. lia.
- destruct (H sid') as [Hs Hb]. cbn zeta in *.
  rewrite get_all_add_other by done. split; [exact Hs|].
  intros a Ha. etransitivity; [by apply Hb|]. apply clock_monotone. lia.
Qed.

Lemma stamped_clear st k sid :
  stamped env st k -> stamped env (clear sid st) k.
Proof.
intros H sid'.
destruct (decide (sid = sid')) as [<-|Hne].
- unfold get_all, clear. rewrite lookup_delete_eq. cbn. split; [|done].
  intros i j a b _ Hi. by rewrite lookup_nil in Hi.
- destruct (H sid') as [Hs Hb]. cbn zeta in *.
  unfold get_all, clear in *. by rewrite lookup_delete_ne.
Qed.

Lemma chat_stamped req w :
  stamped env (memory w) (ticks w) ->
  stamped env (memory (chat env req w).2) (ticks (chat env req w).2).
Proof.
destruct w as [st k log]. cbn [memory ticks]. intros H. unfold chat.
destruct (session_id req) as [[|? ?]|];
  destruct (system req) as [[|? ?]|];
  destruct (opt_truthy (GEMINI_API_KEY env));
  cbn [negb];
  cbv beta iota zeta delta
    [bind ret add_message now try_except read_memory call_model];
  cbn [fst snd memory ticks llm_calls];
  try match goal with |- context [generate_content ?en ?n ?p] =>
        destruct (generate_content en n p) as [?e|?r] end;
  cbn [fst snd memory ticks llm_calls];
  repeat first [apply stamped_add | apply stamped_tick];
  exact H.
Qed.

Lemma served_stamped (rqs : list Request) : forall w,
  stamped env (memory w) (ticks w) ->
  stamped env (memory (serve_all env rqs w)) (ticks (serve_all env rqs w)).
Proof.
unfold serve_all. induction rqs as [|rq rqs IH]; intros w Hw; [done|].
cbn [fold_left]. apply IH. destruct rq as [req|s|s|]; cbn [serve].
- by apply chat_stamped.
- done.
- by apply stamped_clear.
- done.
Qed.

(** X20: under a clock that never runs backwards, however many requests a
    server has taken since it started, the timestamps of every session
    are in non-decreasing order. *)
Theorem served_timestamps_ordered (rqs : list Request) sid i j ti tj :
  let turns := get_all (memory (serve_all env rqs initial_world)) sid in
  (i <= j)%nat -> turns !! i = Some ti -> turns !! j = Some tj ->
  timestamp ti <= timestamp tj.
Proof.
intros turns Hij Hi Hj.
assert (Hinit : stamped env (memory initial_world) (ticks initial_world)).
{ intros s. unfold get_all. cbn. rewrite lookup_empty. cbn. split; [|done].
  intros ? ? ? ? _ H. by rewrite lookup_nil in H. }
destruct (served_stamped rqs _ Hinit sid) as [Hs _].
apply (Hs i j); [done| |]; fold turns;
  change (map timestamp turns) with (timestamp <$> turns);
  rewrite list_lookup_fmap; [by rewrite Hi|by rewrite Hj].
Qed.

End Stamps.

(** ** Instances of the further properties *)

Lemma clear_memory_forgets_witness :
  let w' := (clear_memory (py "s1") sample_world).2 in
  (get_memory (py "s1") w').1 = Returned [] /\
  (get_memory (py "s2") w').1 = (get_memory (py "s2") sample_world).1 /\
  memory (clear_memory (py "s2") sample_world).2 = memory sample_world.
Proof.
destruct (clear_memory_forgets (py "s1") sample_world)
  as (_ & Hget & _ & _ & _ & Hother & _).
destruct (clear_memory_forgets (py "s2") sample_world)
  as (_ & _ & _ & _ & _ & _ & Hnone).
assert (Hne : py "s1" <> py "s2") by discriminate.
assert (Habs : memory sample_world !! py "s2" = None)
  by (apply lookup_singleton_ne; discriminate).
split; [exact Hget|]. split; [exact (Hother _ Hne)|exact (Hnone Habs)].
Defined.

Lemma get_recent_is_suffix_witness :
  Z.of_nat (length (get_recent sample_store (py "s1") 2)) <= 2 /\
  last (get_recent sample_store (py "s1") 2) =
  last (get_all sample_store (py "s1")).
Proof.
destruct (get_recent_is_suffix sample_store (py "s1") 2) as (_ & Hlen & Hlast).
assert (Hpos : 0 < 2) by lia. assert (Hnn : 0 <= 2) by lia.
assert (Hne : get_all sample_store (py "s1") <> []).
{ unfold get_all, sample_store. rewrite lookup_singleton_eq. discriminate. }
split; [exact (Hlen Hpos)|exact (Hlast Hnn Hne)].
Defined.

Lemma blank_text_placeholder_witness :
  build_visual_payload (Some (py "  ")) =
    {| html := py "<p>(empty)</p>"; markdown := []; segments := [] |} /\
  segments (build_visual_payload (Some (py " a "))) <> [].
Proof.
split.
- apply (blank_text_placeholder (Some (py "  "))).
  intros c Hc. vm_compute in Hc.
  repeat destruct Hc as [<-|Hc]; try reflexivity. destruct Hc.
- apply (proj2 (blank_text_placeholder (Some (py " a "))) 97%N).
  + vm_compute. tauto.
  + reflexivity.
Defined.

Lemma output_line_endings_witness :
  py_in [LF; LF]
    (seg_text (paragraph_segment (py "Line one."))) = false.
Proof.
apply (output_line_endings (Some sample_text)).
vm_compute. tauto.
Defined.

Lemma html_only_own_markup_witness :
  py_in (py "<script>") (html (build_visual_payload (Some (py "<script>"))))
  = false.
Proof.
apply (html_only_own_markup (Some (py "<script>")) 115%N
         (py "cript>")); discriminate.
Defined.

Lemma markdown_keeps_raw_text_witness :
  has_substring (py "<script>")
    (markdown (build_visual_payload (Some (py "see <script> here")))).
Proof.
apply (markdown_keeps_raw_text (Some (py "see <script> here")) (py "<script>")).
- discriminate.
- intros c Hc. vm_compute in Hc.
  repeat destruct Hc as [<-|Hc]; try reflexivity. destruct Hc.
- by exists (py "see "), (py " here").
Defined.

Lemma markdown_reformat_witness :
  build_visual_payload
    (Some (markdown (build_visual_payload (Some sample_text)))) =
  build_visual_payload (Some sample_text).
Proof.
apply (markdown_reformat (Some sample_text)).
intros p Hp. vm_compute in Hp. discriminate Hp.
Defined.


Lemma prompt_without_history_witness :
  build_prompt_with_context sample_store (Some (py "nobody")) (py " Hi ") 6 =
  py "User: Hi" ++ [LF] ++ py "Assistant:".
Proof.
apply (prompt_without_history sample_store (Some (py "nobody")) (py " Hi ") 6).
right. unfold get_all, sample_store.
rewrite lookup_singleton_ne by discriminate. reflexivity.
Defined.

Lemma memory_size_beyond_history_witness :
  build_prompt_with_context sample_store (Some (py "s1")) (py "Hi") 3 =
  build_prompt_with_context sample_store (Some (py "s1")) (py "Hi") 50.
Proof.
apply memory_size_beyond_history.
intros sid [= <-]. unfold get_all, sample_store.
rewrite lookup_singleton_eq. simpl. lia.
Defined.

Lemma chat_only_appends_witness :
  get_all
    (memory (chat (sample_env None) sample_request sample_world).2) (py "s2")
  = get_all (memory sample_world) (py "s2").
Proof.
destruct (chat_only_appends (sample_env None) sample_request sample_world)
  as (resp & Hrun & _ & Hother).
apply Hother. vm_compute in Hrun. injection Hrun as <-. discriminate.
Defined.



Lemma chat_prompt_repeats_message_witness :
  exists prompt before,
    llm_calls (chat answering_env sample_request sample_world).2 = [prompt] /\
    prompt =
      before ++ py "User: How are you?" ++ [LF; LF] ++
      py "User: How are you?" ++ [LF] ++ py "Assistant:".
Proof.
assert (Hkey : opt_truthy (GEMINI_API_KEY answering_env) = true)
  by reflexivity.
destruct (chat_prompt_repeats_message answering_env sample_request
            sample_world Hkey) as (prompt & before & Hlog & Hp).
exists prompt, before. split; [exact Hlog|exact Hp].
Defined.

Lemma served_store_ok_witness :
  store_ok
    (memory (serve_all answering_env
               [ReqChat sample_request; ReqClearMemory (py "s1")]
               initial_world)).
Proof.
apply served_store_ok. intros sid items H.
cbn [memory initial_world] in H. by rewrite lookup_empty in H.
Defined.

Lemma chat_defaults_witness :
  chat answering_env (with_memory_size (Some (-3)) sample_request)
    sample_world =
  chat answering_env (with_memory_size (Some 6) sample_request) sample_world.
Proof.
assert (H : -3 <= 0) by lia.
exact (proj1 (chat_defaults answering_env sample_request sample_world
                (Some (-3)) H)).
Defined.

Lemma served_timestamps_ordered_witness :
  exists ti tj,
    let turns :=
      get_all (memory (serve_all answering_env [ReqChat sample_request]
                         initial_world)) (py "s1") in
    turns !! 0%nat = Some ti /\ turns !! 2%nat = Some tj /\
    timestamp ti <= timestamp tj.
Proof.
assert (Hmono : monotone (clock answering_env)).
{ intros i j Hij. simpl. lia. }
destruct (get_all (memory (serve_all answering_env [ReqChat sample_request]
                             initial_world)) (py "s1") !! 0%nat)
  as [ti|] eqn:Hi; [|vm_compute in Hi; discriminate].
destruct (get_all (memory (serve_all answering_env [ReqChat sample_request]
                             initial_world)) (py "s1") !! 2%nat)
  as [tj|] eqn:Hj; [|vm_compute in Hj; discriminate].
exists ti, tj. split; [exact Hi|]. split; [exact Hj|].
assert (Hij : (0 <= 2)%nat) by lia.
exact (served_timestamps_ordered answering_env Hmono
         [ReqChat sample_request] (py "s1") 0%nat 2%nat ti tj Hij Hi Hj).
Defined.
